(** * DecisionDeck: the vote ledger, its read queries and the auth rate limiter

    A shallow embedding of the request handlers of [server/routes/votes.js]
    (submit vote, results, history, invalidate), of the [Vote] documents of
    [server/models/Vote.js], of the [Candidate] documents they read and
    save, with the pre-save middleware of [candidateSchema], and of the
    middleware of [server/middleware/auth.js].

    The document store is two collections held in lists (insertion order)
    plus the generator of fresh [_id]s.  A handler runs to completion before
    the next one starts, so one invocation is one transition of the store;
    the part of the submit handler that follows its checks is also given on
    its own, as it resumes on a store that other requests may have changed
    in between.  The documents of a store satisfy their schemas.  Inserting
    a [Vote] goes through the schema's [required] validators and the unique
    index on (voter, position).  Saving a [Candidate] runs the schema's
    pre-save middleware before anything is written.

    Strings are held as their UTF-8 bytes.  Counters and times
    (milliseconds) are integers; the percentages of the results are
    computed as JavaScript computes them, in IEEE 754 double precision. *)

From Stdlib Require Import ZArith QArith List Bool Ascii String Lia.
From Stdlib Require Import Sorting.Sorted Sorting.Permutation.
From Stdlib Require Floats.SpecFloat.
From stdpp Require Import gmap strings list.

Import ListNotations.
Local Open Scope Z_scope.

(** ** Documents *)

(** A MongoDB [ObjectId]. *)
Definition ObjectId := N.

(** [models/Vote.js]: the fields of [voteSchema]; [createdAt] comes from
    [timestamps: true]. *)
Record Vote := mkVote {
  vote_id   : ObjectId;
  voter     : ObjectId;
  candidate : ObjectId;
  position  : string;
  ipAddress : string;
  userAgent : string;
  isValid   : bool;
  createdAt : Z
}.

(** The [stats] sub-document of [candidateSchema]. *)
Record CandidateStats := mkStats {
  totalVotes     : Z;
  recentVotes    : Z;
  votePercentage : Q;
  positionRank   : Z;
  lastVoteDate   : option Z
}.

(** [candidateSchema]: the fields the vote routes read or write. *)
Record Candidate := mkCandidate {
  cand_id       : ObjectId;
  name          : string;
  party         : string;
  description   : string;
  image         : string;
  cand_position : string;
  isActive      : bool;
  voteCount     : Z;
  stats         : CandidateStats
}.

Inductive Role := voter_role | admin_role.

(** [req.user], as the [auth] middleware leaves it. *)
Record User := mkUser {
  user_id : ObjectId;
  role    : Role
}.

(** The store: the Vote and Candidate collections and the next fresh [_id]. *)
Record DB := mkDB {
  votes      : list Vote;
  candidates : list Candidate;
  nextId     : ObjectId
}.

(** ** String setters of the schemas *)

(** The code points [String.prototype.trim] removes (WhiteSpace and
    LineTerminator), told by the bytes of their UTF-8 encoding.  One byte:
    U+0009 to U+000D and U+0020. *)
Definition is_space (a : ascii) : bool :=
  let n := nat_of_ascii a in
  (Nat.eqb n 32 || Nat.eqb n 9 || Nat.eqb n 10 || Nat.eqb n 11
   || Nat.eqb n 12 || Nat.eqb n 13)%bool.

(** Two bytes: U+00A0 (C2 A0). *)
Definition is_space2 (a b : ascii) : bool :=
  (Nat.eqb (nat_of_ascii a) 194 && Nat.eqb (nat_of_ascii b) 160)%bool.

(** Three bytes: U+1680 (E1 9A 80), U+2000 to U+200A, U+2028, U+2029 and
    U+202F (E2 80 80 to 8A, A8, A9, AF), U+205F (E2 81 9F), U+3000
    (E3 80 80) and U+FEFF (EF BB BF). *)
Definition is_space3 (a b c : ascii) : bool :=
  let x := nat_of_ascii a in
  let y := nat_of_ascii b in
  let z := nat_of_ascii c in
  ((Nat.eqb x 225 && Nat.eqb y 154 && Nat.eqb z 128)
   || (Nat.eqb x 226 && Nat.eqb y 128
       && ((Nat.leb 128 z && Nat.leb z 138)
           || Nat.eqb z 168 || Nat.eqb z 169 || Nat.eqb z 175))
   || (Nat.eqb x 226 && Nat.eqb y 129 && Nat.eqb z 159)
   || (Nat.eqb x 227 && Nat.eqb y 128 && Nat.eqb z 128)
   || (Nat.eqb x 239 && Nat.eqb y 187 && Nat.eqb z 191))%bool.

(** White space is dropped from the front of the bytes; [sp2] and [sp3]
    tell the two-byte and three-byte white space in the order the bytes
    come. *)
Fixpoint drop_spaces (sp2 : ascii -> ascii -> bool)
         (sp3 : ascii -> ascii -> ascii -> bool) (s : string) : string :=
  match s with
  | EmptyString => EmptyString
  | String a s1 =>
    if is_space a then drop_spaces sp2 sp3 s1
    else
      match s1 with
      | EmptyString => s
      | String b s2 =>
        if sp2 a b then drop_spaces sp2 sp3 s2
        else
          match s2 with
          | EmptyString => s
          | String c s3 => if sp3 a b c then drop_spaces sp2 sp3 s3 else s
          end
      end
  end.

Definition trim_start (s : string) : string :=
  drop_spaces is_space2 is_space3 s.

Fixpoint string_rev_onto (s acc : string) : string :=
  match s with
  | EmptyString => acc
  | String a s' => string_rev_onto s' (String a acc)
  end.

Definition string_rev (s : string) : string := string_rev_onto s EmptyString.

(** White space at the end: the same on the reversed bytes. *)
Definition trim_end (s : string) : string :=
  string_rev
    (drop_spaces (fun a b => is_space2 b a) (fun a b c => is_space3 c b a)
                 (string_rev s)).

(** [trim: true] on [position]: the setter Mongoose applies when the field is
    set and when a filter on the field is cast. *)
Definition trim (s : string) : string := trim_end (trim_start s).

Definition nonempty (s : string) : bool :=
  match s with EmptyString => false | String _ _ => true end.

(** ** Collection primitives *)

(** [Candidate.findById(id)]. *)
Definition Candidate_findById (cs : list Candidate) (id : ObjectId)
  : option Candidate :=
  List.find (fun c => N.eqb (cand_id c) id) cs.

(** The write of a stored document: an update of the one document with that
    [_id]. *)
Fixpoint Candidate_update (cs : list Candidate) (c : Candidate)
  : list Candidate :=
  match cs with
  | [] => []
  | d :: cs' =>
    if N.eqb (cand_id d) (cand_id c) then c :: cs'
    else d :: Candidate_update cs' c
  end.

Definition stats_eqb (s t : CandidateStats) : bool :=
  ((totalVotes s =? totalVotes t) && (recentVotes s =? recentVotes t)
   && Qeq_bool (votePercentage s) (votePercentage t)
   && (positionRank s =? positionRank t)
   && match lastVoteDate s, lastVoteDate t with
      | Some a, Some b => a =? b
      | None, None => true
      | _, _ => false
      end)%bool.

(** [this.isModified('voteCount') || this.isModified('stats')], for a
    document that was loaded as [loaded] and is now [c]: a path is modified
    once it has been assigned a value other than the one it held. *)
Definition Candidate_isModified (loaded c : Candidate) : bool :=
  negb ((voteCount loaded =? voteCount c)
        && stats_eqb (stats loaded) (stats c))%bool.

(** [candidateSchema.pre('save')]: [true] when the hook reaches [next()].
    When the counter or the statistics are modified the hook awaits
    [this.updateStats()].  That method queries the Vote collection, assigns
    [stats] and [voteCount] on the document in memory and ends in
    [await this.save()]: a save of the document whose save is under way,
    which Mongoose refuses (ParallelSaveError).  The refusal is thrown out
    of [updateStats] and out of the hook. *)
Definition Candidate_pre_save (loaded c : Candidate) : bool :=
  negb (Candidate_isModified loaded c).

(** [candidate.save()] for a document loaded as [loaded] and now [c]: the
    pre-save hook, then the write.  [None] is the thrown error, and nothing
    is written. *)
Definition Candidate_save (cs : list Candidate) (loaded c : Candidate)
  : option (list Candidate) :=
  if Candidate_pre_save loaded c then Some (Candidate_update cs c) else None.

(** [Vote.findById(id)]. *)
Definition Vote_findById (vs : list Vote) (id : ObjectId) : option Vote :=
  List.find (fun v => N.eqb (vote_id v) id) vs.

(** [Vote.findOne({ voter, position })]; the position of the filter is cast
    through the schema, hence trimmed. *)
Definition Vote_findOne (vs : list Vote) (who : ObjectId) (pos : string)
  : option Vote :=
  List.find
    (fun v => (N.eqb (voter v) who && String.eqb (position v) (trim pos))%bool)
    vs.

(** [Vote.countDocuments({ position })]. *)
Definition Vote_countByPosition (vs : list Vote) (pos : string) : Z :=
  Z.of_nat
    (List.length (List.filter (fun v => String.eqb (position v) (trim pos)) vs)).

(** The [required] validators of [voteSchema] that can fail on a string. *)
Definition Vote_validate (v : Vote) : bool :=
  (nonempty (position v) && nonempty (ipAddress v) && nonempty (userAgent v))%bool.

(** [voteSchema.index({ voter: 1, position: 1 }, { unique: true })]: does the
    collection already hold a document with the key of [v]? *)
Definition unique_index_conflict (vs : list Vote) (v : Vote) : bool :=
  List.existsb
    (fun w => (N.eqb (voter w) (voter v)
               && String.eqb (position w) (position v))%bool) vs.

(** [vote.save()] for a new document: validation, then the insert guarded by
    the unique index.  [None] is the thrown error. *)
Definition Vote_insert (vs : list Vote) (v : Vote) : option (list Vote) :=
  if negb (Vote_validate v) then None
  else if unique_index_conflict vs v then None
  else Some (vs ++ [v]).

(** [vote.save()] for a stored document: an update of the one document with
    that [_id]. *)
Fixpoint Vote_save (vs : list Vote) (v : Vote) : list Vote :=
  match vs with
  | [] => []
  | d :: vs' =>
    if N.eqb (vote_id d) (vote_id v) then v :: vs'
    else d :: Vote_save vs' v
  end.

(** ** Requests, responses, events *)

(** The body and the request metadata read by [POST /api/votes]. *)
Record VoteRequest := mkVoteRequest {
  req_user        : User;
  req_candidateId : ObjectId;
  req_position    : string;
  req_ip          : string;
  req_userAgent   : string;
  req_now         : Z
}.

Inductive Response :=
| VoteSubmitted (v : Vote)     (* 201, 'Vote submitted successfully' *)
| ValidationFailed             (* 400, 'Validation failed' *)
| DuplicateVote                (* 400, 'You have already voted for this position' *)
| CandidateNotFound            (* 404, 'Candidate not found' *)
| VoteNotFound                 (* 404, 'Vote not found' *)
| AdminRequired                (* 403, 'Admin access required' *)
| VoteInvalidated              (* 200, 'Vote invalidated successfully' *)
| ServerError.                 (* 500, 'Server error' *)

Definition http_status (r : Response) : Z :=
  match r with
  | VoteSubmitted _ => 201
  | ValidationFailed => 400
  | DuplicateVote => 400
  | CandidateNotFound => 404
  | VoteNotFound => 404
  | AdminRequired => 403
  | VoteInvalidated => 200
  | ServerError => 500
  end.

(** The ['vote-updated'] payload sent to the room [vote-<position>]. *)
Record VoteUpdated := mkVoteUpdated {
  ev_position    : string;
  ev_candidateId : ObjectId;
  ev_voteCount   : Z;
  ev_totalVotes  : Z
}.

(** What one handler invocation produces. *)
Record Outcome := mkOutcome {
  response : Response;
  emitted  : option VoteUpdated;
  db_after : DB
}.

Definition reply (r : Response) (st : DB) : Outcome :=
  mkOutcome r None st.

(** ** Vote ledger *)

(** [new Vote({...})]: [position] goes through the [trim] setter, [isValid]
    takes its default. *)
Definition new_Vote (st : DB) (r : VoteRequest) : Vote :=
  mkVote (nextId st) (user_id (req_user r)) (req_candidateId r)
         (trim (req_position r)) (req_ip r) (req_userAgent r) true (req_now r).

(** The assignment [candidate.voteCount = n]. *)
Definition set_voteCount (c : Candidate) (n : Z) : Candidate :=
  mkCandidate (cand_id c) (name c) (party c) (description c) (image c)
              (cand_position c) (isActive c) n (stats c).

(** The assignment [vote.isValid = b]. *)
Definition set_isValid (v : Vote) (b : bool) : Vote :=
  mkVote (vote_id v) (voter v) (candidate v) (position v) (ipAddress v)
         (userAgent v) b (createdAt v).

(** The submit handler from [new Vote({...})] on, for the candidate
    document [cand] its checks have loaded: the insert, the update of the
    counter, the event and the answer.  An error thrown on the way is
    caught and answered 500; what was written before it stays written. *)
Definition castVote_record (st : DB) (r : VoteRequest) (cand : Candidate)
  : Outcome :=
  let vote := new_Vote st r in
  match Vote_insert (votes st) vote with
  | None => reply ServerError st
  | Some vs' =>
    let cand' := set_voteCount cand (voteCount cand + 1) in
    match Candidate_save (candidates st) cand cand' with
    | None =>
      mkOutcome ServerError None (mkDB vs' (candidates st) (N.succ (nextId st)))
    | Some cs' =>
      mkOutcome (VoteSubmitted vote)
                (Some (mkVoteUpdated (req_position r) (req_candidateId r)
                         (voteCount cand')
                         (Vote_countByPosition vs' (req_position r))))
                (mkDB vs' cs' (N.succ (nextId st)))
    end
  end.

(** [router.post('/', auth, [...], handler)]: submit a vote. *)
Definition castVote (st : DB) (r : VoteRequest) : Outcome :=
  if negb (nonempty (req_position r)) then reply ValidationFailed st
  else
    match Candidate_findById (candidates st) (req_candidateId r) with
    | None => reply CandidateNotFound st
    | Some cand =>
      if negb (isActive cand) then reply CandidateNotFound st
      else
        match Vote_findOne (votes st) (user_id (req_user r)) (req_position r) with
        | Some _ => reply DuplicateVote st
        | None => castVote_record st r cand
        end
    end.

(** [router.put('/:id/invalidate', auth, handler)]. *)
Definition invalidateVote (st : DB) (u : User) (id : ObjectId) : Outcome :=
  match role u with
  | voter_role => reply AdminRequired st
  | admin_role =>
    match Vote_findById (votes st) id with
    | None => reply VoteNotFound st
    | Some vote =>
      let vote' := set_isValid vote false in
      let vs' := Vote_save (votes st) vote' in
      match Candidate_findById (candidates st) (candidate vote') with
      | None => reply VoteInvalidated (mkDB vs' (candidates st) (nextId st))
      | Some cand =>
        let cand' := set_voteCount cand (Z.max 0 (voteCount cand - 1)) in
        match Candidate_save (candidates st) cand cand' with
        | None => reply ServerError (mkDB vs' (candidates st) (nextId st))
        | Some cs' => reply VoteInvalidated (mkDB vs' cs' (nextId st))
        end
      end
    end
  end.

(** The store a submission leaves behind once its Vote is inserted. *)
Definition db_recorded (st : DB) (r : VoteRequest) : DB :=
  mkDB (votes st ++ [new_Vote st r]) (candidates st) (N.succ (nextId st)).

(** A ledger operation and a run of operations, each handled to completion
    before the next one starts. *)
Inductive LedgerOp :=
| OpCast (r : VoteRequest)
| OpInvalidate (u : User) (id : ObjectId).

Definition ledger_step (st : DB) (op : LedgerOp) : Outcome :=
  match op with
  | OpCast r => castVote st r
  | OpInvalidate u id => invalidateVote st u id
  end.

Fixpoint ledger_run (st : DB) (ops : list LedgerOp) : list Response * DB :=
  match ops with
  | [] => ([], st)
  | op :: ops' =>
    let o := ledger_step st op in
    let (rs, st') := ledger_run (db_after o) ops' in
    (response o :: rs, st')
  end.

(** The store a run of operations ends in. *)
Definition ledger_exec (st : DB) (ops : list LedgerOp) : DB :=
  snd (ledger_run st ops).


(** The number of Vote documents held for the key (voter, position). *)
Definition votes_of (vs : list Vote) (who : ObjectId) (pos : string) : nat :=
  List.length
    (List.filter
       (fun v => (N.eqb (voter v) who && String.eqb (position v) pos)%bool) vs).

(** The key of the unique index. *)
Definition index_key (v : Vote) : ObjectId * string := (voter v, position v).

(** ** Query / aggregation *)

(** [.sort({ key: -1 })]: descending by [key]; documents with equal keys
    keep their order. *)
Fixpoint insert_desc {A : Type} (key : A -> Z) (x : A) (l : list A) : list A :=
  match l with
  | [] => [x]
  | y :: l' =>
    if key y <=? key x then x :: l else y :: insert_desc key x l'
  end.

Definition sort_desc {A : Type} (key : A -> Z) (l : list A) : list A :=
  List.fold_right (insert_desc key) [] l.

(** ** Numbers

    A JavaScript Number is an IEEE 754 double: the finite ones are the
    values [m * 2^e] with [|m| <= 2^53] and [-1074 <= e <= 971].  The sign of
    a zero is not kept. *)
Inductive Number :=
| Fin (m e : Z)          (* m * 2^e *)
| Inf (negative : bool)  (* Infinity, -Infinity *)
| NaN.

(** The integer nearest to [n / d] for [d > 0], the even one on a tie. *)
Definition round_half_even (n d : Z) : Z :=
  let q := n / d in
  let r := n mod d in
  if 2 * r <? d then q
  else if d <? 2 * r then q + 1
  else if Z.even q then q else q + 1.

(** The Number value for the positive rational [p / q]: the double nearest
    to it, the one with the even significand on a tie.  The exponent [e] is
    the one that brings [p / q] to 53 bits, [2^52 <= (p / q) / 2^e < 2^53],
    or -1074 when that is lower still (subnormal range); what rounds to
    [2^1024] or more is [Infinity]. *)
Definition Number_value_pos (p q : Z) : Number :=
  let k := Z.log2 p - Z.log2 q in
  let below := if 0 <=? k then p <? q * 2 ^ k else p * 2 ^ (- k) <? q in
  let e := Z.max (-1074) (if below then k - 53 else k - 52) in
  let m := if 0 <=? e then round_half_even p (q * 2 ^ e)
           else round_half_even (p * 2 ^ (- e)) q in
  if ((971 <=? e) && (2 ^ 53 <=? m * 2 ^ (e - 971)))%bool then Inf false
  else Fin m e.

Definition Number_neg (x : Number) : Number :=
  match x with
  | Fin m e => Fin (- m) e
  | Inf s => Inf (negb s)
  | NaN => NaN
  end.

(** The Number value for the rational [p / q], [q > 0]. *)
Definition Number_value (p q : Z) : Number :=
  if p =? 0 then Fin 0 0
  else if 0 <? p then Number_value_pos p q
  else Number_neg (Number_value_pos (- p) q).

(** [m * 2^e] as a fraction of integers. *)
Definition frac (m e : Z) : Z * Z :=
  if 0 <=? e then (m * 2 ^ e, 1) else (m, 2 ^ (- e)).

(** An integer read as a Number: itself when it has at most 53 bits. *)
Definition Number_of_Z (n : Z) : Number :=
  if Z.abs n <? 2 ^ 53 then Fin n 0 else Number_value n 1.

(** [x / y]: the Number value for the exact quotient. *)
Definition Number_div (x y : Number) : Number :=
  match x, y with
  | Fin m1 e1, Fin m2 e2 =>
    if m2 =? 0 then (if m1 =? 0 then NaN else Inf (m1 <? 0))
    else
      let (n1, d1) := frac m1 e1 in
      let (n2, d2) := frac m2 e2 in
      if 0 <? n2 then Number_value (n1 * d2) (d1 * n2)
      else Number_value (- (n1 * d2)) (d1 * - n2)
  | Fin _ _, Inf _ => Fin 0 0
  | Inf s, Fin m2 _ => Inf (xorb s (m2 <? 0))
  | _, _ => NaN
  end.

(** [x * y]: the Number value for the exact product. *)
Definition Number_mul (x y : Number) : Number :=
  match x, y with
  | Fin m1 e1, Fin m2 e2 =>
    let (n, d) := frac (m1 * m2) (e1 + e2) in Number_value n d
  | Fin m _, Inf s | Inf s, Fin m _ =>
    if m =? 0 then NaN else Inf (xorb s (m <? 0))
  | Inf s, Inf t => Inf (xorb s t)
  | _, _ => NaN
  end.

(** [(a / b) * 100] for the counters [a] and [b]. *)
Definition Number_percent (a b : Z) : Number :=
  Number_mul (Number_div (Number_of_Z a) (Number_of_Z b)) (Number_of_Z 100).

(** The value of the [percentage] field: the number [0], or the string
    produced by [toFixed(2)], read back as a count of hundredths, or one of
    ['Infinity'], ['-Infinity'] and ['NaN']. *)
Inductive Percentage :=
| PctZero
| PctFixed (hundredths : Z)
| PctNonFinite (x : Number).

(** [x.toFixed(2)]: for a finite [x], the integer [n] for which [n / 100] is
    nearest to [|x|], the larger one on a tie, with the sign of [x].  (From
    [1e21] on the string is [x] in exponent notation, whose value is [x]
    itself: [100 * x] hundredths.) *)
Definition toFixed2 (x : Number) : Percentage :=
  match x with
  | Fin m e =>
    let a := Z.abs m in
    let n := if 0 <=? e then 100 * a * 2 ^ e
             else (200 * a + 2 ^ (- e)) / (2 * 2 ^ (- e)) in
    PctFixed (if m <? 0 then - n else n)
  | _ => PctNonFinite x
  end.

Definition pct_hundredths (p : Percentage) : Z :=
  match p with
  | PctZero => 0
  | PctFixed h => h
  | PctNonFinite _ => 0
  end.

(** The same percentage with the operations the standard library gives for
    binary64 ([SpecFloat], precision 53, exponents below 1024), to compare
    with [Number_percent]. *)
Definition binary64_of_Z (n : Z) : SpecFloat.spec_float :=
  match n with
  | Z0 => SpecFloat.S754_zero false
  | Zpos p => SpecFloat.binary_normalize 53 1024 (Zpos p) 0 false
  | Zneg p => SpecFloat.binary_normalize 53 1024 (Zpos p) 0 true
  end.

Definition binary64_percent (a b : Z) : SpecFloat.spec_float :=
  SpecFloat.SFmul 53 1024
    (SpecFloat.SFdiv 53 1024 (binary64_of_Z a) (binary64_of_Z b))
    (binary64_of_Z 100).

(** Do [x] and [y] stand for the same double? *)
Definition Number_same (x : Number) (y : SpecFloat.spec_float) : bool :=
  match x, y with
  | Fin m _, SpecFloat.S754_zero _ => m =? 0
  | Fin m e, SpecFloat.S754_finite s m' e' =>
    let v' := if s then Zneg m' else Zpos m' in
    let lo := Z.min e e' in
    m * 2 ^ (e - lo) =? v' * 2 ^ (e' - lo)
  | Inf s, SpecFloat.S754_infinity s' => Bool.eqb s s'
  | NaN, SpecFloat.S754_nan => true
  | _, _ => false
  end.

(** ... for every counter below [n] and every number of votes from 1 to
    [n]. *)
Definition percent_grid_agrees (n : nat) : bool :=
  List.forallb
    (fun a =>
       List.forallb
         (fun b => Number_same (Number_percent (Z.of_nat a) (Z.of_nat (S b)))
                               (binary64_percent (Z.of_nat a) (Z.of_nat (S b))))
         (List.seq 0 n))
    (List.seq 0 n).

Record ResultEntry := mkResultEntry {
  res_id          : ObjectId;
  res_name        : string;
  res_party       : string;
  res_description : string;
  res_image       : string;
  res_voteCount   : Z;
  res_percentage  : Percentage
}.

Record Results := mkResults {
  r_position        : string;
  r_results         : list ResultEntry;
  r_totalVotes      : Z;
  r_totalCandidates : Z
}.

(** [Candidate.find({ position, isActive: true })]. *)
Definition Candidate_findActive (cs : list Candidate) (pos : string)
  : list Candidate :=
  List.filter
    (fun c => (String.eqb (cand_position c) (trim pos) && isActive c)%bool) cs.

Definition result_entry (total : Z) (c : Candidate) : ResultEntry :=
  mkResultEntry (cand_id c) (name c) (party c) (description c) (image c)
                (voteCount c)
                (if 0 <? total then toFixed2 (Number_percent (voteCount c) total)
                 else PctZero).

(** [router.get('/results/:position', handler)]. *)
Definition resultsForPosition (st : DB) (pos : string) : Results :=
  let cands := sort_desc voteCount (Candidate_findActive (candidates st) pos) in
  let total := Vote_countByPosition (votes st) pos in
  mkResults pos (List.map (result_entry total) cands) total
            (Z.of_nat (List.length cands)).

Definition Zsum (l : list Z) : Z := List.fold_right Z.add 0 l.

(** The sum of [voteCount] over the active candidates of a position. *)
Definition active_voteCount_sum (st : DB) (pos : string) : Z :=
  Zsum (List.map voteCount (Candidate_findActive (candidates st) pos)).

(** The sum of the reported percentages, in hundredths. *)
Definition percentage_sum (r : Results) : Z :=
  Zsum (List.map (fun e => pct_hundredths (res_percentage e)) (r_results r)).

(** The percentage law in the words of the specification: the denominator is
    the sum of [voteCount] over the active candidates of the position.  Each
    reported percentage is that ratio up to the rounding of [toFixed(2)]; a
    zero sum gives zero percentages; otherwise the percentages add up to 100
    up to one hundredth per candidate. *)
Definition spec_percentage_law (st : DB) (pos : string) : Prop :=
  let R := resultsForPosition st pos in
  let S := active_voteCount_sum st pos in
  (0 < S ->
   forall e, In e (r_results R) ->
     Z.abs (2 * S * pct_hundredths (res_percentage e) - 20000 * res_voteCount e)
     <= S)
  /\ (S = 0 ->
      forall e, In e (r_results R) -> pct_hundredths (res_percentage e) = 0)
  /\ (0 < S -> Z.abs (percentage_sum R - 10000) <= r_totalCandidates R).

(** [populate('candidate', 'name position party')]. *)
Record CandidateRef := mkCandidateRef {
  ref_id       : ObjectId;
  ref_name     : string;
  ref_position : string;
  ref_party    : string
}.

Record PopulatedVote := mkPopulatedVote {
  pv_vote      : Vote;
  pv_candidate : option CandidateRef
}.

Definition populate_candidate (cs : list Candidate) (v : Vote) : PopulatedVote :=
  mkPopulatedVote v
    (match Candidate_findById cs (candidate v) with
     | Some c => Some (mkCandidateRef (cand_id c) (name c) (cand_position c) (party c))
     | None => None
     end).

Record HistoryPage := mkHistoryPage {
  h_votes       : list PopulatedVote;
  h_totalPages  : Z;
  h_currentPage : Z;
  h_total       : Z
}.

(** [Vote.find({ voter })]. *)
Definition Vote_findByVoter (vs : list Vote) (who : ObjectId) : list Vote :=
  List.filter (fun v => N.eqb (voter v) who) vs.

(** [Math.ceil(total / limit)] for [limit > 0]. *)
Definition ceil_div (total limit : Z) : Z := (total + limit - 1) / limit.

(** [router.get('/history', auth, handler)] for numeric [page >= 1] and
    [limit >= 1]; the store skips before it limits.  Outside that range the
    answer depends on how the driver treats a zero or negative [limit] and
    [skip], which is not modelled: [None]. *)
Definition votingHistory (st : DB) (u : User) (page limit : Z)
  : option HistoryPage :=
  if ((1 <=? page) && (1 <=? limit))%bool then
    let mine := Vote_findByVoter (votes st) (user_id u) in
    let sorted := sort_desc createdAt mine in
    let paged :=
      List.firstn (Z.to_nat (limit * 1))
                  (List.skipn (Z.to_nat ((page - 1) * limit)) sorted) in
    let total := Z.of_nat (List.length mine) in
    Some (mkHistoryPage (List.map (populate_candidate (candidates st)) paged)
                        (ceil_div total limit) page total)
  else None.

(** ** Rate limiting of authentication attempts *)

(** An entry of the [authAttempts] map. *)
Record Attempt := mkAttempt {
  count     : Z;
  resetTime : Z
}.

Definition windowMs : Z := 15 * 60 * 1000.
Definition maxAttempts : Z := 5.

Inductive RateDecision :=
| Next                          (* next() *)
| TooMany (retryAfter : Z).     (* 429 *)

(** [Math.ceil(x / 1000)]. *)
Definition ceil_seconds (x : Z) : Z := - ((- x) / 1000).

(** [rateLimitAuth(req, res, next)] with [ip = req.ip] and [now = Date.now()].
    The entry object is updated in place, so every change made before the
    decision is visible in the map afterwards. *)
Definition rateLimitAuth (m : gmap string Attempt) (ip : string) (now : Z)
  : RateDecision * gmap string Attempt :=
  let a0 :=
    match m !! ip with
    | Some a => a
    | None => mkAttempt 0 (now + windowMs)
    end in
  let a1 := if resetTime a0 <? now then mkAttempt 0 (now + windowMs) else a0 in
  if maxAttempts <=? count a1
  then (TooMany (ceil_seconds (resetTime a1 - now)), <[ip := a1]> m)
  else (Next, <[ip := mkAttempt (count a1 + 1) (resetTime a1)]> m).

(** The periodic clean-up: entries whose window is over are dropped. *)
Definition cleanup_attempts (m : gmap string Attempt) (now : Z)
  : gmap string Attempt :=
  filter (fun kv => ¬ (resetTime (snd kv) < now)) m.

(** A run of the limiter over requests [(ip, now)]. *)
Fixpoint rateLimit_run (m : gmap string Attempt) (reqs : list (string * Z))
  : list RateDecision * gmap string Attempt :=
  match reqs with
  | [] => ([], m)
  | (ip, now) :: reqs' =>
    let (d, m1) := rateLimitAuth m ip now in
    let (ds, m2) := rateLimit_run m1 reqs' in
    (d :: ds, m2)
  end.

Definition is_next (d : RateDecision) : bool :=
  match d with Next => true | TooMany _ => false end.

(** How many requests of the address [ip] a run lets through. *)
Fixpoint accepted_for (ip : string) (reqs : list (string * Z))
         (ds : list RateDecision) : Z :=
  match reqs, ds with
  | (ip', _) :: reqs', d :: ds' =>
    (if (String.eqb ip' ip && is_next d)%bool then 1 else 0)
    + accepted_for ip reqs' ds'
  | _, _ => 0
  end.


(** ** Candidate methods *)

(** [candidateSchema.methods.incrementVoteCount] at time [now], called on
    a document loaded as [c]: the assignments, then [this.save()].  The
    result is the Candidate collection after the call, [None] when the save
    throws. *)
Definition incrementVoteCount (cs : list Candidate) (c : Candidate) (now : Z)
  : option (list Candidate) :=
  Candidate_save cs c
    (mkCandidate (cand_id c) (name c) (party c) (description c) (image c)
                 (cand_position c) (isActive c) (voteCount c + 1)
                 (mkStats (totalVotes (stats c) + 1) (recentVotes (stats c) + 1)
                          (votePercentage (stats c)) (positionRank (stats c))
                          (Some now))).

(** [candidateSchema.methods.decrementVoteCount], likewise. *)
Definition decrementVoteCount (cs : list Candidate) (c : Candidate)
  : option (list Candidate) :=
  Candidate_save cs c
    (mkCandidate (cand_id c) (name c) (party c) (description c) (image c)
                 (cand_position c) (isActive c) (Z.max 0 (voteCount c - 1))
                 (mkStats (Z.max 0 (totalVotes (stats c) - 1))
                          (Z.max 0 (recentVotes (stats c) - 1))
                          (votePercentage (stats c)) (positionRank (stats c))
                          (lastVoteDate (stats c)))).

(** ** Preconditions of a submission *)

(** The request passes the route's validators and the schema's, and names a
    candidate that exists and is active. *)
Definition castable (st : DB) (r : VoteRequest) : bool :=
  (nonempty (trim (req_position r)) && nonempty (req_ip r)
   && nonempty (req_userAgent r)
   && match Candidate_findById (candidates st) (req_candidateId r) with
      | Some c => isActive c
      | None => false
      end)%bool.

(** Does a submission get its Vote inserted?  It does when it is
    acceptable and the voter holds no vote for the position. *)
Definition records (st : DB) (r : VoteRequest) : bool :=
  (castable st r
   && match Vote_findOne (votes st) (user_id (req_user r)) (req_position r) with
      | None => true
      | Some _ => false
      end)%bool.

(** ** A small election, used to run the handlers *)

Definition no_stats : CandidateStats := mkStats 0 0 0%Q 0 None.

Definition alice : User := mkUser 1%N voter_role.
Definition bob   : User := mkUser 2%N voter_role.
Definition carol : User := mkUser 3%N admin_role.

Definition cand_X : Candidate :=
  mkCandidate 10%N "Xavier" "Blue" "" "" "President" true 0 no_stats.
Definition cand_Y : Candidate :=
  mkCandidate 11%N "Yara" "Green" "" "" "President" true 0 no_stats.
Definition cand_M : Candidate :=
  mkCandidate 12%N "Milo" "" "" "" "Mayor" true 0 no_stats.

Definition db0 : DB := mkDB [] [cand_X; cand_Y; cand_M] 100%N.

Definition ballot (u : User) (cid : ObjectId) (pos : string) (now : Z)
  : VoteRequest :=
  mkVoteRequest u cid pos "10.0.0.7" "Mozilla/5.0" now.

(** The two ballots for Xavier. *)
Definition alice_ballot : VoteRequest := ballot alice 10%N "President" 1000.
Definition bob_ballot : VoteRequest := ballot bob 10%N "President" 2000.

(** The Vote document Alice's ballot creates in [db0]. *)
Definition alice_vote : Vote := new_Vote db0 alice_ballot.

(** Alice and Bob have both submitted their ballots for Xavier. *)
Definition db_two_votes : DB :=
  ledger_exec db0 [OpCast alice_ballot; OpCast bob_ballot].

(** ... and Alice's vote has been invalidated once. *)
Definition db_one_invalidated : DB :=
  ledger_exec db_two_votes [OpInvalidate carol 100%N].

(** The Vote document Bob's ballot creates after Alice's. *)
Definition bob_vote : Vote :=
  new_Vote (db_after (castVote db0 alice_ballot)) bob_ballot.

(** A store whose counters are right: Xavier is referenced by Alice's and
    Bob's valid votes and his counter is 2. *)
Definition db_counted : DB :=
  mkDB [alice_vote; bob_vote] [set_voteCount cand_X 2; cand_Y; cand_M] 102%N.

(** Another one: Alice's vote is invalid and Xavier's counter is 1. *)
Definition db_recounted : DB :=
  mkDB [set_isValid alice_vote false; bob_vote]
       [set_voteCount cand_X 1; cand_Y; cand_M] 102%N.

(** Dave, who has not voted, and three ballots of his for President. *)
Definition dave : User := mkUser 4%N voter_role.
Definition dave_ballots : list VoteRequest :=
  [ballot dave 11%N "President" 3000;
   ballot dave 10%N " President " 3001;
   ballot dave 11%N "President" 3002].

(** Alice has voted for President and for Mayor, Bob for President. *)
Definition db_history : DB :=
  ledger_exec db0 [OpCast alice_ballot; OpCast bob_ballot;
                   OpCast (ballot alice 12%N "Mayor" 3000)].

(** Requests reaching the limiter: seven from one address, one from another,
    all within a quarter of an hour. *)
Definition auth_requests : list (string * Z) :=
  [("10.0.0.7", 1000); ("10.0.0.7", 2000); ("10.0.0.9", 2500);
   ("10.0.0.7", 3000); ("10.0.0.7", 4000); ("10.0.0.7", 5000);
   ("10.0.0.7", 900000)]%string.

(** ** Runs of the rate limiter *)

(** The reading of the clock never goes back along the requests. *)
Fixpoint clock_monotone (T : Z) (reqs : list (string * Z)) : Prop :=
  match reqs with
  | [] => True
  | (_, now) :: reqs' => T <= now /\ clock_monotone now reqs'
  end.

(** The decisions a run takes on the requests of the address [ip]. *)
Fixpoint decisions_for (ip : string) (reqs : list (string * Z))
         (ds : list RateDecision) : list RateDecision :=
  match reqs, ds with
  | (ip', _) :: reqs', d :: ds' =>
    if String.eqb ip' ip then d :: decisions_for ip reqs' ds'
    else decisions_for ip reqs' ds'
  | _, _ => []
  end.

(** ** Users and the authentication middleware *)

(** The [stats] sub-document of [userSchema]. *)
Record UserStats := mkUserStats {
  us_totalVotes     : Z;
  us_positionsVoted : Z;
  us_lastVoteDate   : option Z
}.

(** [userSchema]: the fields the middleware and the model methods read or
    write. *)
Record UserDoc := mkUserDoc {
  ud_id        : ObjectId;
  ud_username  : string;
  ud_role      : Role;
  ud_isActive  : bool;
  ud_lastLogin : option Z;
  ud_stats     : UserStats
}.

(** The string stored in the [role] path. *)
Definition role_name (r : Role) : string :=
  match r with
  | voter_role => "user"
  | admin_role => "admin"
  end.

(** [req.user] as the vote routes read it. *)
Definition as_req_user (d : UserDoc) : User := mkUser (ud_id d) (ud_role d).

(** [User.findById(id)]. *)
Definition User_findById (us : list UserDoc) (id : ObjectId) : option UserDoc :=
  List.find (fun d => N.eqb (ud_id d) id) us.

(** [User.findByIdAndUpdate(id, { lastLogin: now })]. *)
Fixpoint User_setLastLogin (us : list UserDoc) (id : ObjectId) (now : Z)
  : list UserDoc :=
  match us with
  | [] => []
  | d :: us' =>
    if N.eqb (ud_id d) id
    then mkUserDoc (ud_id d) (ud_username d) (ud_role d) (ud_isActive d)
                   (Some now) (ud_stats d) :: us'
    else d :: User_setLastLogin us' id now
  end.

(** The places a token is looked for: the [Authorization] and
    [x-auth-token] headers and the [token] cookie, each possibly absent. *)
Record AuthHeaders := mkAuthHeaders {
  h_authorization : option string;
  h_x_auth_token  : option string;
  h_cookie_token  : option string
}.

(** JavaScript truthiness of a string that may be [undefined]. *)
Definition truthy (o : option string) : bool :=
  match o with
  | Some s => nonempty s
  | None => false
  end.

(** [a || b]. *)
Definition js_or (a b : option string) : option string :=
  if truthy a then a else b.

Fixpoint string_drop (n : nat) (s : string) : string :=
  match n, s with
  | O, _ => s
  | S n', String _ s' => string_drop n' s'
  | S _, EmptyString => EmptyString
  end.

(** [s.replace(pat, '')] for a string pattern: the first occurrence of
    [pat] is removed. *)
Fixpoint remove_first (pat s : string) : string :=
  if String.prefix pat s then string_drop (String.length pat) s
  else match s with
       | EmptyString => EmptyString
       | String a s' => String a (remove_first pat s')
       end.

(** [req.header('Authorization')?.replace('Bearer ', '')
     || req.header('x-auth-token') || req.cookies?.token]. *)
Definition extract_token (h : AuthHeaders) : option string :=
  js_or (js_or (option_map (remove_first "Bearer ") (h_authorization h))
               (h_x_auth_token h))
        (h_cookie_token h).

(** What [jwt.verify(token, secret)] does: it returns the payload, of which
    the middleware reads [userId] (possibly missing) and [iat] (seconds), or
    throws.  The function itself belongs to the [jsonwebtoken] package and
    is a parameter of the middleware below. *)
Inductive JwtVerify :=
| JwtDecoded (userId : option ObjectId) (iat : Z)
| JsonWebTokenError
| TokenExpiredError
| JwtOtherError.

(** The [code] of a refusal. *)
Inductive AuthReject :=
| NO_TOKEN
| INVALID_TOKEN_FORMAT
| USER_NOT_FOUND
| ACCOUNT_DEACTIVATED
| TOKEN_EXPIRED
| INVALID_TOKEN
| AUTH_ERROR
| AUTH_REQUIRED
| ADMIN_REQUIRED
| INSUFFICIENT_PERMISSIONS.

Definition auth_status (c : AuthReject) : Z :=
  match c with
  | AUTH_ERROR => 500
  | ADMIN_REQUIRED | INSUFFICIENT_PERMISSIONS => 403
  | _ => 401
  end.

(** The middleware either calls [next()] with [req.user] set, or answers. *)
Inductive AuthResult :=
| Authenticated (u : UserDoc)
| Rejected (code : AuthReject).

Definition maxAge : Z := 7 * 24 * 60 * 60 * 1000.
Definition lastLoginThreshold : Z := 5 * 60 * 1000.

(** [!user.lastLogin || Date.now() - lastLogin > lastLoginThreshold]. *)
Definition lastLogin_stale (d : UserDoc) (now : Z) : bool :=
  match ud_lastLogin d with
  | None => true
  | Some t => lastLoginThreshold <? now - t
  end.

(** [auth(req, res, next)] at time [now], with the Users collection it reads
    and may update. *)
Definition auth (jwt_verify : string -> JwtVerify) (us : list UserDoc)
           (h : AuthHeaders) (now : Z) : AuthResult * list UserDoc :=
  match extract_token h with
  | None => (Rejected NO_TOKEN, us)
  | Some token =>
    if negb (nonempty token) then (Rejected NO_TOKEN, us)
    else
      match jwt_verify token with
      | JsonWebTokenError => (Rejected INVALID_TOKEN, us)
      | TokenExpiredError => (Rejected TOKEN_EXPIRED, us)
      | JwtOtherError => (Rejected AUTH_ERROR, us)
      | JwtDecoded None _ => (Rejected INVALID_TOKEN_FORMAT, us)
      | JwtDecoded (Some uid) iat =>
        match User_findById us uid with
        | None => (Rejected USER_NOT_FOUND, us)
        | Some user =>
          if negb (ud_isActive user) then (Rejected ACCOUNT_DEACTIVATED, us)
          else if maxAge <? now - iat * 1000 then (Rejected TOKEN_EXPIRED, us)
          else
            (Authenticated user,
             if lastLogin_stale user now
             then User_setLastLogin us (ud_id user) now
             else us)
        end
      end
  end.

(** [adminAuth(req, res, next)]: [auth] with a continuation that checks the
    role.  ([auth] has set [req.user] before it calls the continuation, so
    the continuation's own [AUTH_REQUIRED] answer is never given.) *)
Definition adminAuth (jwt_verify : string -> JwtVerify) (us : list UserDoc)
           (h : AuthHeaders) (now : Z) : AuthResult * list UserDoc :=
  match auth jwt_verify us h now with
  | (Authenticated user, us') =>
    match ud_role user with
    | admin_role => (Authenticated user, us')
    | voter_role => (Rejected ADMIN_REQUIRED, us')
    end
  | (Rejected c, us') => (Rejected c, us')
  end.

(** [optionalAuth(req, res, next)]: [next()] is always called; the result is
    [req.user], if any. *)
Definition optionalAuth (jwt_verify : string -> JwtVerify) (us : list UserDoc)
           (h : AuthHeaders) : option UserDoc :=
  match extract_token h with
  | None => None
  | Some token =>
    if negb (nonempty token) then None
    else
      match jwt_verify token with
      | JwtDecoded (Some uid) _ =>
        match User_findById us uid with
        | Some user => if ud_isActive user then Some user else None
        | None => None
        end
      | _ => None
      end
  end.

(** [requireRole(roles)(req, res, next)]; [None] is [next()]. *)
Definition requireRole (roles : list string) (u : option UserDoc)
  : option AuthReject :=
  match u with
  | None => Some AUTH_REQUIRED
  | Some d =>
    if List.existsb (String.eqb (role_name (ud_role d))) roles then None
    else Some INSUFFICIENT_PERMISSIONS
  end.

(** [requirePermission(permission)(req, res, next)]; [perms] is the value of
    [req.user.permissions], [None] when the document has no such field. *)
Definition requirePermission (permission : string) (u : option UserDoc)
           (perms : option (list string)) : option AuthReject :=
  match u with
  | None => Some AUTH_REQUIRED
  | Some d =>
    match ud_role d with
    | admin_role => None
    | voter_role =>
      let userPermissions := match perms with Some l => l | None => [] end in
      if List.existsb (String.eqb permission) userPermissions then None
      else Some INSUFFICIENT_PERMISSIONS
    end
  end.

(** A route behind [auth]: refused by the middleware, or handled. *)
Inductive Secured (A : Type) :=
| Refused (code : AuthReject)
| Handled (a : A).
Arguments Refused {A} code.
Arguments Handled {A} a.


(** [PUT /api/votes/:id/invalidate] with its middleware. *)
Definition put_invalidate (jwt_verify : string -> JwtVerify)
           (us : list UserDoc) (st : DB) (h : AuthHeaders) (id : ObjectId)
           (now : Z) : Secured Outcome * list UserDoc * DB :=
  match auth jwt_verify us h now with
  | (Authenticated user, us') =>
    let o := invalidateVote st (as_req_user user) id in
    (Handled o, us', db_after o)
  | (Rejected c, us') => (Refused c, us', st)
  end.

(** ** Methods of the User model *)

(** [userSchema.methods.canVoteForPosition(position)]. *)
Definition canVoteForPosition (vs : list Vote) (d : UserDoc) (pos : string)
  : bool :=
  match Vote_findOne vs (ud_id d) pos with
  | Some _ => false
  | None => true
  end.

Definition Zmax_list (l : list Z) : option Z :=
  match l with
  | [] => None
  | x :: l' => Some (List.fold_left Z.max l' x)
  end.

(** [userSchema.methods.updateStats()]: the document after the call.  The
    aggregation yields no group for a user without votes, and then nothing
    is written. *)
Definition User_updateStats (vs : list Vote) (d : UserDoc) : UserDoc :=
  let mine := List.filter (fun v => N.eqb (voter v) (ud_id d)) vs in
  match mine with
  | [] => d
  | _ :: _ =>
    mkUserDoc (ud_id d) (ud_username d) (ud_role d) (ud_isActive d)
              (ud_lastLogin d)
              (mkUserStats
                 (Z.of_nat (List.length mine))
                 (Z.of_nat (List.length
                              (List.nodup string_dec (List.map position mine))))
                 (Zmax_list (List.map createdAt mine)))
  end.

(** ** Candidate routes *)

(** [Candidate.findByIdAndDelete(id)]. *)
Fixpoint Candidate_delete (cs : list Candidate) (id : ObjectId)
  : list Candidate :=
  match cs with
  | [] => []
  | d :: cs' =>
    if N.eqb (cand_id d) id then cs' else d :: Candidate_delete cs' id
  end.

Inductive DeleteResponse :=
| CandidateDeleted      (* 200, 'Candidate deleted successfully' *)
| DeleteNotFound.       (* 404, 'Candidate not found' *)

(** [router.delete('/:id', adminAuth, handler)], past the middleware. *)
Definition deleteCandidate (st : DB) (id : ObjectId) : DeleteResponse * DB :=
  match Candidate_findById (candidates st) id with
  | None => (DeleteNotFound, st)
  | Some _ =>
    (CandidateDeleted,
     mkDB (votes st) (Candidate_delete (candidates st) id) (nextId st))
  end.

(** A line of [topCandidates]: [select('name voteCount position')]. *)
Record TopCandidate := mkTopCandidate {
  top_id        : ObjectId;
  top_name      : string;
  top_voteCount : Z;
  top_position  : string
}.

Record CandidateOverview := mkCandidateOverview {
  co_totalCandidates : Z;
  co_totalVotes      : Z;
  co_topCandidates   : list TopCandidate
}.

(** [router.get('/stats/overview', handler)] of the candidate routes. *)
Definition candidateOverview (st : DB) : CandidateOverview :=
  let act := List.filter isActive (candidates st) in
  mkCandidateOverview
    (Z.of_nat (List.length act))
    (Zsum (List.map voteCount act))
    (List.map (fun c => mkTopCandidate (cand_id c) (name c) (voteCount c)
                                       (cand_position c))
              (List.firstn 5 (sort_desc voteCount act))).

(** ** Vote statistics for admins *)

(** [$group: { _id: key, count: { $sum: 1 } }]: one group per key, in the
    order the keys are first met. *)
Fixpoint group_bump (k : string) (acc : list (string * Z))
  : list (string * Z) :=
  match acc with
  | [] => [(k, 1)]
  | (k', n) :: acc' =>
    if String.eqb k' k then (k', n + 1) :: acc'
    else (k', n) :: group_bump k acc'
  end.

Definition group_count (keys : list string) : list (string * Z) :=
  List.fold_left (fun acc k => group_bump k acc) keys [].

(** The count reported for the key [k], 0 when no group has that key. *)
Definition group_lookup (groups : list (string * Z)) (k : string) : Z :=
  match List.find (fun g => String.eqb (fst g) k) groups with
  | Some g => snd g
  | None => 0
  end.

(** [$sort: { _id: 1 }] on string keys. *)
Fixpoint insert_by_key (x : string * Z) (l : list (string * Z))
  : list (string * Z) :=
  match l with
  | [] => [x]
  | y :: l' =>
    if String.leb (fst x) (fst y) then x :: l else y :: insert_by_key x l'
  end.

Definition sort_by_key (l : list (string * Z)) : list (string * Z) :=
  List.fold_right insert_by_key [] l.

(** The [createdAt] filter built from [startDate] and [endDate]: in force
    only when both are given. *)
Definition in_range (range : option (Z * Z)) (v : Vote) : bool :=
  match range with
  | Some (s, e) => ((s <=? createdAt v) && (createdAt v <=? e))%bool
  | None => true
  end.

Inductive AdminStatsResponse :=
| StatsForbidden                                  (* 403 *)
| StatsReport (total valid invalid : Z)
              (votesByPosition dailyVotes : list (string * Z)).

(** [router.get('/stats/admin', auth, handler)], past the middleware.
    [dateToString] is MongoDB's [$dateToString] with format [%Y-%m-%d]. *)
Definition adminStats (dateToString : Z -> string) (st : DB) (u : User)
           (range : option (Z * Z)) : AdminStatsResponse :=
  match role u with
  | voter_role => StatsForbidden
  | admin_role =>
    let sel := List.filter (in_range range) (votes st) in
    StatsReport
      (Z.of_nat (List.length sel))
      (Z.of_nat (List.length (List.filter isValid sel)))
      (Z.of_nat (List.length (List.filter (fun v => negb (isValid v)) sel)))
      (sort_desc snd (group_count (List.map position sel)))
      (sort_by_key
         (group_count (List.map (fun v => dateToString (createdAt v)) sel)))
  end.

(** ** More of the small election *)

Definition alice_doc : UserDoc :=
  mkUserDoc 1%N "alice" voter_role true (Some 0) (mkUserStats 0 0 None).
Definition bob_doc : UserDoc :=
  mkUserDoc 2%N "bob" voter_role false (Some 0) (mkUserStats 0 0 None).
Definition carol_doc : UserDoc :=
  mkUserDoc 3%N "carol" admin_role true None (mkUserStats 0 0 None).

Definition demo_users : list UserDoc := [alice_doc; bob_doc; carol_doc].

(** Tokens issued at second 1000 to Alice, Bob and Carol; anything else does
    not verify. *)
Definition demo_verify (token : string) : JwtVerify :=
  if String.eqb token "alice.jwt" then JwtDecoded (Some 1%N) 1000
  else if String.eqb token "bob.jwt" then JwtDecoded (Some 2%N) 1000
  else if String.eqb token "carol.jwt" then JwtDecoded (Some 3%N) 1000
  else JsonWebTokenError.

Definition bearer (token : string) : AuthHeaders :=
  mkAuthHeaders (Some ("Bearer " ++ token)%string) None None.

(** A stand-in for [$dateToString] on the first two days of the epoch. *)
Definition demo_day (ms : Z) : string :=
  if ms <? 86400000 then "1970-01-01" else "1970-01-02".

(** * Properties *)

(** ** Lookups and writes *)

Lemma find_none_existsb {A : Type} (f : A -> bool) (l : list A) :
  List.find f l = None -> List.existsb f l = false.
Proof.
  induction l as [|x l IH]; simpl; [reflexivity|].
  destruct (f x); [discriminate | exact IH].
Qed.

Lemma find_none_filter {A : Type} (f : A -> bool) (l : list A) :
  List.find f l = None <-> List.filter f l = [].
Proof.
  induction l as [|x l IH]; simpl; [tauto|].
  destruct (f x); [split; discriminate | exact IH].
Qed.

Lemma Candidate_findById_id cs id c :
  Candidate_findById cs id = Some c -> cand_id c = id.
Proof.
  unfold Candidate_findById. intros H.
  apply List.find_some in H. destruct H as [_ H]. now apply N.eqb_eq.
Qed.

Lemma Vote_findById_id vs id v :
  Vote_findById vs id = Some v -> vote_id v = id.
Proof.
  unfold Vote_findById. intros H.
  apply List.find_some in H. destruct H as [_ H]. now apply N.eqb_eq.
Qed.

Lemma Vote_findById_In vs id v :
  Vote_findById vs id = Some v -> In v vs.
Proof.
  unfold Vote_findById. intros H. now apply List.find_some in H.
Qed.

(** Writing back the document that is stored changes nothing. *)
Lemma Candidate_update_found cs c :
  Candidate_findById cs (cand_id c) = Some c -> Candidate_update cs c = cs.
Proof.
  unfold Candidate_findById. induction cs as [|d cs IH]; simpl; [reflexivity|].
  destruct (N.eqb (cand_id d) (cand_id c)) eqn:E.
  - now intros [= ->].
  - intros H. f_equal. now apply IH.
Qed.

Lemma Vote_findById_save_same vs v v' :
  vote_id v' = vote_id v ->
  Vote_findById vs (vote_id v) = Some v ->
  Vote_findById (Vote_save vs v') (vote_id v) = Some v'.
Proof.
  intros Hid. unfold Vote_findById.
  induction vs as [|d vs IH]; simpl; [discriminate|].
  rewrite Hid.
  destruct (N.eqb (vote_id d) (vote_id v)) eqn:E; simpl.
  - intros _. rewrite Hid, N.eqb_refl. reflexivity.
  - rewrite E. exact IH.
Qed.


(** Updating the document found under an [_id] with one that has the same
    index key leaves the keys of the collection as they were. *)
Lemma Vote_save_keys vs v v' :
  vote_id v' = vote_id v ->
  index_key v' = index_key v ->
  Vote_findById vs (vote_id v) = Some v ->
  List.map index_key (Vote_save vs v') = List.map index_key vs.
Proof.
  intros Hid Hkey. unfold Vote_findById.
  induction vs as [|d vs IH]; simpl; [reflexivity|].
  rewrite Hid.
  destruct (N.eqb (vote_id d) (vote_id v)) eqn:E; simpl.
  - intros [= ->]. now rewrite Hkey.
  - intros H. f_equal. now apply IH.
Qed.

(** ** Saving a candidate *)

Lemma set_voteCount_same c : set_voteCount c (voteCount c) = c.
Proof. now destruct c. Qed.


Lemma stats_eqb_refl s : stats_eqb s s = true.
Proof.
  unfold stats_eqb. rewrite !Z.eqb_refl.
  assert (Qeq_bool (votePercentage s) (votePercentage s) = true) as ->
    by (apply Qeq_bool_iff; reflexivity).
  destruct (lastVoteDate s); [apply Z.eqb_refl | reflexivity].
Qed.

(** A save after [voteCount += 1] is always refused: the counter is
    modified, so the hook runs [updateStats], whose own save is refused. *)
Lemma Candidate_save_raised cs c :
  Candidate_save cs c (set_voteCount c (voteCount c + 1)) = None.
Proof.
  unfold Candidate_save, Candidate_pre_save, Candidate_isModified.
  cbn [set_voteCount voteCount stats].
  assert ((voteCount c =? voteCount c + 1) = false) as ->
    by (apply Z.eqb_neq; lia).
  reflexivity.
Qed.

(** A save after [voteCount = Math.max(0, voteCount - 1)] is refused unless
    the counter was 0 already, and then it writes nothing new. *)
Lemma Candidate_save_lowered cs c :
  Candidate_findById cs (cand_id c) = Some c ->
  Candidate_save cs c (set_voteCount c (Z.max 0 (voteCount c - 1)))
  = if voteCount c =? 0 then Some cs else None.
Proof.
  intros Hc. destruct (voteCount c =? 0) eqn:E.
  - apply Z.eqb_eq in E.
    replace (Z.max 0 (voteCount c - 1)) with (voteCount c) by lia.
    rewrite set_voteCount_same.
    unfold Candidate_save, Candidate_pre_save, Candidate_isModified.
    rewrite Z.eqb_refl, stats_eqb_refl. cbn [andb negb].
    f_equal. now apply Candidate_update_found.
  - apply Z.eqb_neq in E.
    unfold Candidate_save, Candidate_pre_save, Candidate_isModified.
    cbn [set_voteCount voteCount stats].
    assert ((voteCount c =? Z.max 0 (voteCount c - 1)) = false) as ->
      by (apply Z.eqb_neq; lia).
    reflexivity.
Qed.

(** ** The submit handler, case by case *)

Lemma nonempty_trim s : nonempty (trim s) = true -> nonempty s = true.
Proof. destruct s; [discriminate | reflexivity]. Qed.

(** White space of more than one byte is trimmed as a blank is: U+00A0
    (bytes C2 A0) in front, U+3000 (bytes E3 80 80) behind; white space
    inside stays. *)
Lemma trim_examples :
  trim " President " = "President"%string
  /\ trim (String (ascii_of_nat 194) (String (ascii_of_nat 160) "President"))
     = "President"%string
  /\ trim ("Vice President"
           ++ String (ascii_of_nat 227)
                (String (ascii_of_nat 128) (String (ascii_of_nat 128) "")))
     = "Vice President"%string
  /\ trim (String (ascii_of_nat 194) (String (ascii_of_nat 160) " "))
     = ""%string.
Proof. repeat split. Qed.

Lemma castable_inv st r :
  castable st r = true ->
  nonempty (req_position r) = true
  /\ Vote_validate (new_Vote st r) = true
  /\ exists c, Candidate_findById (candidates st) (req_candidateId r) = Some c
               /\ isActive c = true.
Proof.
  unfold castable, Vote_validate. cbn [new_Vote position ipAddress userAgent].
  intros H.
  apply andb_prop in H as [H Hc]. apply andb_prop in H as [H Hua].
  apply andb_prop in H as [Hp Hip].
  split; [now apply nonempty_trim|]. split.
  - now rewrite Hp, Hip, Hua.
  - destruct (Candidate_findById _ _) as [c|]; [|discriminate]. now exists c.
Qed.

(** Past the checks: either the insert is refused and nothing is written,
    or the Vote is inserted and the handler still answers 500, because the
    save of the candidate is refused. *)
Lemma castVote_record_cases st r c :
  (Vote_insert (votes st) (new_Vote st r) = None
   /\ castVote_record st r c = reply ServerError st)
  \/ (Vote_insert (votes st) (new_Vote st r)
      = Some (votes st ++ [new_Vote st r])
      /\ castVote_record st r c = mkOutcome ServerError None (db_recorded st r)).
Proof.
  unfold castVote_record.
  destruct (Vote_insert (votes st) (new_Vote st r)) as [vs'|] eqn:Hins;
    [|left; now split].
  right.
  assert (vs' = votes st ++ [new_Vote st r]) as ->.
  { unfold Vote_insert in Hins.
    destruct (negb _); [discriminate|].
    destruct (unique_index_conflict _ _); [discriminate|]. congruence. }
  split; [reflexivity|]. now rewrite Candidate_save_raised.
Qed.

Lemma castVote_recorded st r :
  castable st r = true ->
  Vote_findOne (votes st) (user_id (req_user r)) (req_position r) = None ->
  castVote st r = mkOutcome ServerError None (db_recorded st r).
Proof.
  intros Hc Hnone.
  destruct (castable_inv _ _ Hc) as (Hp & Hv & c & Hfind & Hact).
  unfold castVote. rewrite Hp, Hfind, Hact, Hnone. cbn [negb].
  destruct (castVote_record_cases st r c) as [[Hins _] | [_ H]]; [|exact H].
  exfalso. unfold Vote_insert in Hins. rewrite Hv in Hins. cbn [negb] in Hins.
  assert (Hidx : unique_index_conflict (votes st) (new_Vote st r) = false).
  { unfold unique_index_conflict. cbn [new_Vote voter position].
    now apply find_none_existsb. }
  rewrite Hidx in Hins. discriminate.
Qed.

Lemma castVote_duplicate st r w :
  castable st r = true ->
  Vote_findOne (votes st) (user_id (req_user r)) (req_position r) = Some w ->
  castVote st r = reply DuplicateVote st.
Proof.
  intros Hc Hsome.
  destruct (castable_inv _ _ Hc) as (Hp & _ & c & Hfind & Hact).
  unfold castVote. now rewrite Hp, Hfind, Hact, Hsome.
Qed.

(** Whatever the request, a submission either leaves the store alone or
    inserts its Vote and is answered 500. *)
Lemma castVote_cases st r :
  (db_after (castVote st r) = st
   /\ emitted (castVote st r) = None
   /\ (response (castVote st r) = ValidationFailed
       \/ response (castVote st r) = CandidateNotFound
       \/ response (castVote st r) = DuplicateVote
       \/ response (castVote st r) = ServerError))
  \/ (exists c,
        Candidate_findById (candidates st) (req_candidateId r) = Some c
        /\ isActive c = true
        /\ Vote_findOne (votes st) (user_id (req_user r)) (req_position r) = None
        /\ Vote_insert (votes st) (new_Vote st r)
           = Some (votes st ++ [new_Vote st r])
        /\ castVote st r = mkOutcome ServerError None (db_recorded st r)).
Proof.
  unfold castVote.
  destruct (nonempty (req_position r)); cbn [negb];
    [|left; cbn; auto].
  destruct (Candidate_findById _ _) as [c|] eqn:Hfind; [|left; cbn; auto 6].
  destruct (isActive c) eqn:Hact; cbn [negb]; [|left; cbn; auto 6].
  destruct (Vote_findOne _ _ _) eqn:Hone; [left; cbn; auto 6|].
  destruct (castVote_record_cases st r c) as [[_ ->] | [Hins ->]].
  - left. cbn. auto 6.
  - right. exists c. repeat split; assumption.
Qed.

(** No submission is answered 201, and none emits ['vote-updated']. *)
Lemma castVote_never_submitted st r :
  (forall v, response (castVote st r) <> VoteSubmitted v)
  /\ emitted (castVote st r) = None.
Proof.
  destruct (castVote_cases st r)
    as [(_ & He & [H | [H | [H | H]]]) | (c & _ & _ & _ & _ & H)];
    rewrite ?H; split; try assumption; try reflexivity;
    intros v; rewrite ?H; discriminate.
Qed.

(** ** The unique index *)

Lemma index_conflict_false vs v :
  unique_index_conflict vs v = false -> ~ In (index_key v) (List.map index_key vs).
Proof.
  unfold unique_index_conflict. intros H Hin.
  apply in_map_iff in Hin as (w & Hk & Hw).
  assert (List.existsb
            (fun w => (N.eqb (voter w) (voter v)
                       && String.eqb (position w) (position v))%bool) vs = true)
    as Hex.
  { apply existsb_exists. exists w. split; [exact Hw|].
    unfold index_key in Hk. injection Hk as Hv Hp.
    rewrite Hv, Hp, N.eqb_refl, String.eqb_refl. reflexivity. }
  congruence.
Qed.

(** The insert alone keeps the keys distinct, whatever the handler checked
    before it. *)
Lemma Vote_insert_unique vs v vs' :
  List.NoDup (List.map index_key vs) ->
  Vote_insert vs v = Some vs' ->
  List.NoDup (List.map index_key vs').
Proof.
  unfold Vote_insert. intros Hnd H.
  destruct (negb _); [discriminate|].
  destruct (unique_index_conflict vs v) eqn:Hc; [discriminate|].
  injection H as <-. rewrite List.map_app. simpl.
  apply List.NoDup_app; [exact Hnd | repeat constructor; simpl; tauto |].
  intros k Hk [<-|[]]. now apply (index_conflict_false _ _ Hc).
Qed.

Lemma Vote_insert_conflict vs v w :
  In w vs -> index_key w = index_key v -> Vote_insert vs v = None.
Proof.
  intros Hin Hk. unfold Vote_insert.
  destruct (negb _); [reflexivity|].
  destruct (unique_index_conflict vs v) eqn:Hc; [reflexivity|].
  exfalso. apply (index_conflict_false _ _ Hc).
  rewrite <- Hk. now apply List.in_map.
Qed.

Lemma invalidateVote_keys st u id :
  List.map index_key (votes (db_after (invalidateVote st u id)))
  = List.map index_key (votes st).
Proof.
  unfold invalidateVote.
  destruct (role u); [reflexivity|].
  destruct (Vote_findById (votes st) id) as [v|] eqn:Hv; [|reflexivity].
  assert (Hk : List.map index_key (Vote_save (votes st) (set_isValid v false))
               = List.map index_key (votes st)).
  { apply (Vote_save_keys _ v); [reflexivity | reflexivity |].
    now rewrite (Vote_findById_id _ _ _ Hv). }
  destruct (Candidate_findById _ _); [|exact Hk].
  destruct (Candidate_save _ _ _); exact Hk.
Qed.

Lemma ledger_step_unique st op :
  List.NoDup (List.map index_key (votes st)) ->
  List.NoDup (List.map index_key (votes (db_after (ledger_step st op)))).
Proof.
  intros Hnd. destruct op as [r | u id]; cbn [ledger_step].
  - destruct (castVote_cases st r) as [(-> & _) | (c & _ & _ & _ & Hins & ->)];
      [exact Hnd|].
    cbn [db_after db_recorded votes]. exact (Vote_insert_unique _ _ _ Hnd Hins).
  - now rewrite invalidateVote_keys.
Qed.

Lemma ledger_exec_cons st op ops :
  ledger_exec st (op :: ops) = ledger_exec (db_after (ledger_step st op)) ops.
Proof.
  unfold ledger_exec. simpl.
  destruct (ledger_run (db_after (ledger_step st op)) ops). reflexivity.
Qed.

Lemma ledger_run_cons st op ops :
  fst (ledger_run st (op :: ops))
  = response (ledger_step st op)
    :: fst (ledger_run (db_after (ledger_step st op)) ops).
Proof.
  simpl. destruct (ledger_run (db_after (ledger_step st op)) ops). reflexivity.
Qed.

(** The unique index holds in every store the ledger can reach. *)
Lemma ledger_exec_unique ops : forall st,
  List.NoDup (List.map index_key (votes st)) ->
  List.NoDup (List.map index_key (votes (ledger_exec st ops))).
Proof.
  induction ops as [|op ops IH]; intros st Hnd; [exact Hnd|].
  rewrite ledger_exec_cons. apply IH. now apply ledger_step_unique.
Qed.

Lemma votes_of_absent vs w q :
  ~ In (w, q) (List.map index_key vs) -> votes_of vs w q = 0%nat.
Proof.
  unfold votes_of. induction vs as [|d vs IH]; simpl; [reflexivity|].
  intros Hn.
  destruct (N.eqb (voter d) w && String.eqb (position d) q)%bool eqn:E.
  - exfalso. apply Hn. left. apply andb_prop in E as [E1 E2].
    apply N.eqb_eq in E1. apply String.eqb_eq in E2.
    unfold index_key. congruence.
  - apply IH. tauto.
Qed.

Lemma votes_of_present vs w q :
  In (w, q) (List.map index_key vs) -> (1 <= votes_of vs w q)%nat.
Proof.
  unfold votes_of. intros Hin. apply in_map_iff in Hin as (d & Hk & Hd).
  unfold index_key in Hk. injection Hk as Hv Hp.
  assert (In d (List.filter
                  (fun v => (N.eqb (voter v) w && String.eqb (position v) q)%bool)
                  vs)) as Hf.
  { apply List.filter_In. split; [exact Hd|].
    now rewrite Hv, Hp, N.eqb_refl, String.eqb_refl. }
  destruct (List.filter _ vs); [destruct Hf | cbn [List.length]; lia].
Qed.

Lemma votes_of_unique vs w q :
  List.NoDup (List.map index_key vs) -> (votes_of vs w q <= 1)%nat.
Proof.
  induction vs as [|d vs IH]; simpl; intros Hnd; [unfold votes_of; simpl; lia|].
  inversion Hnd as [|k ks Hnin Hnd']; subst.
  unfold votes_of in *. simpl.
  destruct (N.eqb (voter d) w && String.eqb (position d) q)%bool eqn:E.
  - apply andb_prop in E as [E1 E2].
    apply N.eqb_eq in E1. apply String.eqb_eq in E2.
    assert (Hz : votes_of vs w q = 0%nat).
    { apply votes_of_absent. subst w q. exact Hnin. }
    unfold votes_of in Hz. simpl. rewrite Hz. lia.
  - now apply IH.
Qed.

(** ** One vote per voter and position *)

Lemma Vote_findOne_none vs w pos :
  votes_of vs w (trim pos) = 0%nat -> Vote_findOne vs w pos = None.
Proof.
  unfold votes_of, Vote_findOne. intros H.
  apply find_none_filter. now apply List.length_zero_iff_nil.
Qed.

Lemma Vote_findOne_some vs w pos :
  In (w, trim pos) (List.map index_key vs) ->
  exists d, Vote_findOne vs w pos = Some d.
Proof.
  unfold Vote_findOne. intros Hin.
  apply in_map_iff in Hin as (d & Hk & Hd).
  destruct (List.find _ vs) as [d'|] eqn:E; [now exists d'|].
  exfalso. apply (List.find_none _ _ E) in Hd.
  unfold index_key in Hk. injection Hk as Hv Hp.
  now rewrite Hv, Hp, N.eqb_refl, String.eqb_refl in Hd.
Qed.

Lemma votes_of_app vs ws w q :
  votes_of (vs ++ ws) w q = (votes_of vs w q + votes_of ws w q)%nat.
Proof. unfold votes_of. now rewrite List.filter_app, List.length_app. Qed.

(** ** A consumed slot stays consumed *)

Lemma ledger_step_keeps_key st op k :
  In k (List.map index_key (votes st)) ->
  In k (List.map index_key (votes (db_after (ledger_step st op)))).
Proof.
  intros Hin. destruct op as [r | u id]; cbn [ledger_step].
  - destruct (castVote_cases st r) as [(-> & _) | (c & _ & _ & _ & _ & ->)];
      [exact Hin|].
    cbn [db_after db_recorded votes]. rewrite List.map_app.
    apply List.in_or_app. now left.
  - now rewrite invalidateVote_keys.
Qed.

Lemma ledger_exec_keeps_key ops : forall st k,
  In k (List.map index_key (votes st)) ->
  In k (List.map index_key (votes (ledger_exec st ops))).
Proof.
  induction ops as [|op ops IH]; intros st k Hin; [exact Hin|].
  rewrite ledger_exec_cons. apply IH. now apply ledger_step_keeps_key.
Qed.

(** A submission for a key that is already in the collection writes
    nothing. *)
Lemma castVote_taken st r :
  In (user_id (req_user r), trim (req_position r))
     (List.map index_key (votes st)) ->
  (forall v, response (castVote st r) <> VoteSubmitted v)
  /\ db_after (castVote st r) = st
  /\ (castable st r = true -> response (castVote st r) = DuplicateVote).
Proof.
  intros Hin. destruct (Vote_findOne_some _ _ _ Hin) as [d Hd].
  split; [apply castVote_never_submitted|].
  destruct (castVote_cases st r)
    as [(Hdb & _) | (c & _ & _ & Hnone & _)]; [|congruence].
  split; [exact Hdb|].
  intros Hc. now rewrite (castVote_duplicate st r d Hc Hd).
Qed.

(** A submission that has passed its duplicate check and finds the key
    taken when it inserts is stopped by the unique index: 500, and nothing
    is written. *)
Lemma castVote_record_taken st r c :
  In (user_id (req_user r), trim (req_position r))
     (List.map index_key (votes st)) ->
  castVote_record st r c = reply ServerError st.
Proof.
  intros Hin. apply in_map_iff in Hin as (w & Hk & Hw).
  destruct (castVote_record_cases st r c) as [[_ H] | [Hins _]]; [exact H|].
  rewrite (Vote_insert_conflict (votes st) (new_Vote st r) w Hw Hk) in Hins.
  discriminate.
Qed.

(** C1.  At most one Vote document exists per (voter, position), but no
    submission is ever answered 201.  When a voter who holds no vote for
    position [p] submits an acceptable vote for [p], the Vote is inserted
    and the request is answered 500: the save of the candidate that
    follows the insert is refused by the pre-save hook.  Whatever ledger
    traffic follows, exactly one document is held for the key and at most
    one for any key; every further submission of the voter for [p] writes
    nothing, and is answered 400 "already voted" when it is acceptable
    otherwise; and a submission that passed its duplicate check before the
    key was taken is stopped by the unique index when it inserts (500,
    nothing written). *)
Theorem castVote_once_per_position st who p r :
  List.NoDup (List.map index_key (votes st)) ->
  votes_of (votes st) who p = 0%nat ->
  user_id (req_user r) = who ->
  trim (req_position r) = p ->
  castable st r = true ->
  let o := castVote st r in
  response o = ServerError
  /\ http_status (response o) = 500
  /\ votes (db_after o) = votes st ++ [new_Vote st r]
  /\ (forall ops,
        let st2 := ledger_exec (db_after o) ops in
        votes_of (votes st2) who p = 1%nat
        /\ (forall w q, (votes_of (votes st2) w q <= 1)%nat)
        /\ (forall r',
              user_id (req_user r') = who ->
              trim (req_position r') = p ->
              db_after (castVote st2 r') = st2
              /\ (castable st2 r' = true ->
                  response (castVote st2 r') = DuplicateVote
                  /\ http_status (response (castVote st2 r')) = 400)
              /\ (forall c, castVote_record st2 r' c = reply ServerError st2)))
  /\ (forall st' r' v, response (castVote st' r') <> VoteSubmitted v).
Proof.
  intros Hnd Hfresh Hu Hp Hc o. unfold o.
  assert (Hnone : Vote_findOne (votes st) (user_id (req_user r))
                               (req_position r) = None)
    by (apply Vote_findOne_none; now rewrite Hu, Hp).
  rewrite (castVote_recorded st r Hc Hnone). cbn [response db_after].
  split; [reflexivity|]. split; [reflexivity|]. split; [reflexivity|].
  split; [|intros st' r' v; apply castVote_never_submitted].
  intros ops. cbv zeta. set (st2 := ledger_exec (db_recorded st r) ops).
  assert (Hnd1 : List.NoDup (List.map index_key (votes (db_recorded st r)))).
  { pose proof (ledger_step_unique st (OpCast r) Hnd) as H.
    cbn [ledger_step] in H. now rewrite (castVote_recorded st r Hc Hnone) in H. }
  assert (Hnd2 : List.NoDup (List.map index_key (votes st2)))
    by (apply ledger_exec_unique; exact Hnd1).
  assert (Hkey : In (who, p) (List.map index_key (votes st2))).
  { apply ledger_exec_keeps_key. cbn [db_recorded votes].
    rewrite List.map_app. apply List.in_or_app. right. left.
    unfold index_key. cbn [new_Vote voter position]. congruence. }
  split.
  { pose proof (votes_of_present _ _ _ Hkey).
    pose proof (votes_of_unique (votes st2) who p Hnd2). lia. }
  split; [intros w q; now apply votes_of_unique|].
  intros r' Hu' Hp'. rewrite <- Hu', <- Hp' in Hkey.
  destruct (castVote_taken st2 r' Hkey) as (_ & Hdb & Hdup).
  split; [exact Hdb|]. split.
  - intros Hc'. rewrite (Hdup Hc'). now split.
  - intros c. now apply castVote_record_taken.
Qed.

(** ** The position a vote is recorded under *)



(** ** Invalidation *)



(** No invalidation writes to the Candidate collection. *)
Lemma invalidateVote_candidates st u id :
  candidates (db_after (invalidateVote st u id)) = candidates st.
Proof.
  unfold invalidateVote.
  destruct (role u); [reflexivity|].
  destruct (Vote_findById (votes st) id) as [v|]; [|reflexivity].
  cbn [set_isValid candidate].
  destruct (Candidate_findById (candidates st) (candidate v)) as [c|] eqn:Hc;
    [|reflexivity].
  pose proof (Candidate_findById_id _ _ _ Hc) as Hcid. rewrite <- Hcid in Hc.
  rewrite (Candidate_save_lowered _ _ Hc).
  now destruct (voteCount c =? 0).
Qed.







(** ** Frame of a submission *)

Lemma Vote_findById_app vs ws id w :
  Vote_findById vs id = Some w -> Vote_findById (vs ++ ws) id = Some w.
Proof.
  unfold Vote_findById. induction vs as [|d vs IH]; simpl; [discriminate|].
  destruct (N.eqb (vote_id d) id); [trivial | exact IH].
Qed.


(** C6.  After an admin has invalidated a stored vote, and after any further
    ledger operations, a submission by the same voter for the same position
    is never accepted and changes nothing; when it is acceptable otherwise
    (valid request, existing active candidate) it is answered 400 "already
    voted". *)
Theorem invalidated_vote_keeps_slot st u id vote ops r :
  role u = admin_role ->
  Vote_findById (votes st) id = Some vote ->
  user_id (req_user r) = voter vote ->
  trim (req_position r) = position vote ->
  let st1 := db_after (invalidateVote st u id) in
  let st2 := ledger_exec st1 ops in
  Vote_findById (votes st1) id = Some (set_isValid vote false)
  /\ (forall v, response (castVote st2 r) <> VoteSubmitted v)
  /\ db_after (castVote st2 r) = st2
  /\ (castable st2 r = true ->
      response (castVote st2 r) = DuplicateVote
      /\ http_status (response (castVote st2 r)) = 400).
Proof.
  intros Hu Hv Hwho Hpos st1 st2.
  pose proof (Vote_findById_id _ _ _ Hv) as Hvid.
  assert (H1 : Vote_findById (votes st1) id = Some (set_isValid vote false)).
  { unfold st1, invalidateVote. rewrite Hu, Hv.
    assert (Vote_findById (Vote_save (votes st) (set_isValid vote false)) id
            = Some (set_isValid vote false)) as Hs.
    { rewrite <- Hvid. apply Vote_findById_save_same; [reflexivity|].
      now rewrite Hvid. }
    destruct (Candidate_findById _ _); [|exact Hs].
    destruct (Candidate_save _ _ _); exact Hs. }
  assert (Hkey : In (user_id (req_user r), trim (req_position r))
                    (List.map index_key (votes st2))).
  { unfold st2. apply ledger_exec_keeps_key.
    unfold st1. rewrite invalidateVote_keys, Hwho, Hpos.
    apply (List.in_map index_key). exact (Vote_findById_In _ _ _ Hv). }
  destruct (castVote_taken st2 r Hkey) as (Hno & Hdb & Hdup).
  split; [exact H1|]. split; [exact Hno|]. split; [exact Hdb|].
  intros Hc. rewrite (Hdup Hc). split; reflexivity.
Qed.

(** ** Counter consistency *)

(** No ledger operation writes to the Candidate collection. *)
Lemma ledger_step_candidates_same st op :
  candidates (db_after (ledger_step st op)) = candidates st.
Proof.
  destruct op as [r | u id]; cbn [ledger_step].
  - destruct (castVote_cases st r) as [(-> & _) | (c & _ & _ & _ & _ & ->)];
      reflexivity.
  - apply invalidateVote_candidates.
Qed.

Lemma ledger_exec_candidates_same ops : forall st,
  candidates (ledger_exec st ops) = candidates st.
Proof.
  induction ops as [|op ops IH]; intros st; [reflexivity|].
  rewrite ledger_exec_cons, IH. apply ledger_step_candidates_same.
Qed.


(** ** Double-precision arithmetic *)

Lemma round_half_even_near n d :
  0 < d -> - d <= 2 * (round_half_even n d * d - n) <= d.
Proof.
  intros Hd. unfold round_half_even. cbv zeta.
  pose proof (Z.div_mod n d ltac:(lia)) as Hdm.
  pose proof (Z.mod_pos_bound n d Hd) as Hm.
  remember (n / d) as q. remember (n mod d) as r.
  destruct (2 * r <? d) eqn:E1; [apply Z.ltb_lt in E1; nia|].
  apply Z.ltb_ge in E1.
  destruct (d <? 2 * r) eqn:E2; [apply Z.ltb_lt in E2; nia|].
  apply Z.ltb_ge in E2.
  destruct (Z.even q); nia.
Qed.

(** The exponent chosen by [Number_value_pos] brings [p / q] to 53 bits.
    With [E = - e], for a quotient between [2^-1021] and [2^52]. *)
Lemma Number_value_pos_normal p q :
  0 < p -> 0 < q ->
  let k := Z.log2 p - Z.log2 q in
  -1021 <= k -> k < 52 ->
  exists m E,
    0 < E /\ k - 53 <= - E <= k - 52
    /\ Number_value_pos p q = Fin m (- E)
    /\ 2 ^ 52 * q <= p * 2 ^ E
    /\ p * 2 ^ E < 2 ^ 53 * q
    /\ - q <= 2 * (m * q - p * 2 ^ E) <= q.
Proof.
  intros Hp Hq k Hlo Hhi.
  pose proof (Z.log2_spec p Hp) as [Hp1 Hp2].
  pose proof (Z.log2_spec q Hq) as [Hq1 Hq2].
  pose proof (Z.log2_nonneg p) as Hlp. pose proof (Z.log2_nonneg q) as Hlq.
  set (lp := Z.log2 p) in *. set (lq := Z.log2 q) in *.
  rewrite Z.pow_succ_r in Hp2, Hq2 by lia.
  set (below := if 0 <=? k then p <? q * 2 ^ k else p * 2 ^ (- k) <? q).
  set (e := if below then k - 53 else k - 52).
  assert (He : e < 0 /\ -1074 <= e) by (unfold e; destruct below; lia).
  exists (round_half_even (p * 2 ^ (- e)) q), (- e).
  assert (Hnv : Number_value_pos p q
                = Fin (round_half_even (p * 2 ^ (- e)) q) (- - e)).
  { unfold Number_value_pos. fold lp lq k below e.
    rewrite Z.max_r by lia.
    assert ((0 <=? e) = false) as -> by (apply Z.leb_gt; lia).
    assert ((971 <=? e) = false) as -> by (apply Z.leb_gt; lia).
    cbn [andb]. now rewrite Z.opp_involutive. }
  assert (Hb : 2 ^ 52 * q <= p * 2 ^ (- e) /\ p * 2 ^ (- e) < 2 ^ 53 * q).
  { assert (H2pos : forall z, 0 <= z -> 0 < 2 ^ z) by (intros; apply Z.pow_pos_nonneg; lia).
    unfold e, below. destruct (0 <=? k) eqn:Ek.
    - apply Z.leb_le in Ek.
      assert (HA : 2 ^ lp = 2 ^ lq * 2 ^ k)
        by (rewrite <- Z.pow_add_r by lia; f_equal; unfold k; lia).
      pose proof (H2pos k Ek) as HK. pose proof (H2pos lq Hlq) as HB.
      destruct (p <? q * 2 ^ k) eqn:Eb.
      + apply Z.ltb_lt in Eb.
        replace (- (k - 53)) with (53 - k) by lia.
        pose proof (H2pos (53 - k) ltac:(lia)) as HT.
        assert (HC : 2 ^ k * 2 ^ (53 - k) = 2 ^ 53)
          by (rewrite <- Z.pow_add_r by lia; f_equal; lia).
        assert (H52 : 2 ^ 53 = 2 * 2 ^ 52) by reflexivity.
        remember (2 ^ k) as K. remember (2 ^ (53 - k)) as T.
        remember (2 ^ lq) as B. remember (2 ^ lp) as A.
        remember (2 ^ 53) as C. remember (2 ^ 52) as C2.
        split.
        * assert (q * K < 2 * p) by nia.
          assert (q * K * T < 2 * p * T) by nia.
          assert (q * (K * T) < 2 * (p * T)) by lia.
          rewrite HC, H52 in H1. lia.
        * assert (p * T < q * K * T) by nia.
          assert (q * K * T = q * C) by (rewrite <- HC; ring). lia.
      + apply Z.ltb_ge in Eb.
        replace (- (k - 52)) with (52 - k) by lia.
        pose proof (H2pos (52 - k) ltac:(lia)) as HT.
        assert (HC : 2 ^ k * 2 ^ (52 - k) = 2 ^ 52)
          by (rewrite <- Z.pow_add_r by lia; f_equal; lia).
        assert (H52 : 2 ^ 53 = 2 * 2 ^ 52) by reflexivity.
        remember (2 ^ k) as K. remember (2 ^ (52 - k)) as T.
        remember (2 ^ lq) as B. remember (2 ^ lp) as A.
        remember (2 ^ 53) as C. remember (2 ^ 52) as C2.
        split.
        * assert (q * K * T <= p * T) by nia.
          assert (q * K * T = C2 * q) by (rewrite <- HC; ring). lia.
        * assert (p < 2 * q * K) by nia.
          assert (p * T < 2 * q * K * T) by nia.
          assert (2 * q * K * T = 2 * C2 * q) by (rewrite <- HC; ring). lia.
    - apply Z.leb_gt in Ek.
      assert (HA : 2 ^ lq = 2 ^ lp * 2 ^ (- k))
        by (rewrite <- Z.pow_add_r by lia; f_equal; unfold k; lia).
      pose proof (H2pos (- k) ltac:(lia)) as HK. pose proof (H2pos lp Hlp) as HB.
      destruct (p * 2 ^ (- k) <? q) eqn:Eb.
      + apply Z.ltb_lt in Eb.
        replace (- (k - 53)) with (- k + 53) by lia.
        rewrite Z.pow_add_r by lia.
        assert (H52 : 2 ^ 53 = 2 * 2 ^ 52) by reflexivity.
        remember (2 ^ (- k)) as K.
        remember (2 ^ lq) as B. remember (2 ^ lp) as A.
        remember (2 ^ 53) as C. remember (2 ^ 52) as C2.
        assert (0 < C2) by (subst C2; reflexivity).
        split.
        * assert (q < 2 * p * K) by nia. nia.
        * nia.
      + apply Z.ltb_ge in Eb.
        replace (- (k - 52)) with (- k + 52) by lia.
        rewrite Z.pow_add_r by lia.
        assert (H52 : 2 ^ 53 = 2 * 2 ^ 52) by reflexivity.
        remember (2 ^ (- k)) as K.
        remember (2 ^ lq) as B. remember (2 ^ lp) as A.
        remember (2 ^ 53) as C. remember (2 ^ 52) as C2.
        assert (0 < C2) by (subst C2; reflexivity).
        split.
        * nia.
        * assert (p * K < 2 * q) by nia. nia. }
  split; [lia|]. split; [unfold e in *; destruct below; lia|].
  split; [exact Hnv|].
  rewrite Z.opp_involutive in *.
  split; [apply Hb|]. split; [apply Hb|].
  exact (round_half_even_near (p * 2 ^ (- e)) q Hq).
Qed.

(** One rounding to 53 bits is off by at most one part in [2^53]. *)
Lemma rounding_error (P Q bnd : Z) :
  2 ^ 52 * bnd <= Q -> - bnd <= 2 * (P - Q) <= bnd ->
  (2 ^ 53 - 1) * Q <= 2 ^ 53 * P <= (2 ^ 53 + 1) * Q.
Proof.
  intros. change (2 ^ 53) with 9007199254740992.
  change (2 ^ 52) with 4503599627370496 in *. lia.
Qed.

(** The roundings of the quotient [m1 / D1] of [a / b] and of the product
    [m2 / D2] of that quotient by 100 are too small to move the hundredth
    [n] that [toFixed(2)] picks away from the exact percentage. *)
Lemma hundredths_near (a b m1 D1 m2 D2 n : Z) :
  0 < a <= 2 ^ 36 -> 0 < b -> 0 < D1 -> 0 < D2 ->
  2 ^ 52 * b <= a * D1 ->
  - b <= 2 * (m1 * b - a * D1) <= b ->
  2 ^ 52 * D1 <= m1 * 100 * D2 ->
  - D1 <= 2 * (m2 * D1 - m1 * 100 * D2) <= D1 ->
  2 * D2 * n <= 200 * m2 + D2 < 2 * D2 * n + 2 * D2 ->
  Z.abs (2 * b * n - 20000 * a) <= b.
Proof.
  intros Ha Hb HD1 HD2 H1a H1b H2a H2b H3.
  pose proof (rounding_error (m1 * b) (a * D1) b H1a H1b) as [L1 U1].
  pose proof (rounding_error (m2 * D1) (m1 * 100 * D2) D1 H2a H2b) as [L2 U2].
  change (2 ^ 53) with 9007199254740992 in *.
  change (2 ^ 36) with 68719476736 in *.
  set (U := 9007199254740992) in *.
  assert (G1 : U * U * (m2 * b) * D1
               <= (U + 1) * (U + 1) * 100 * (D2 * a) * D1).
  { assert (E1 : U * (U * (m2 * D1)) * b
                 <= U * ((U + 1) * (m1 * 100 * D2)) * b)
      by (apply Z.mul_le_mono_nonneg_r; [lia|];
          apply Z.mul_le_mono_nonneg_l; [unfold U; lia | exact U2]).
    assert (E2 : (U + 1) * 100 * D2 * (U * (m1 * b))
                 <= (U + 1) * 100 * D2 * ((U + 1) * (a * D1)))
      by (apply Z.mul_le_mono_nonneg_l; [unfold U; nia | exact U1]).
    nia. }
  assert (G2 : (U - 1) * (U - 1) * 100 * (D2 * a) * D1
               <= U * U * (m2 * b) * D1).
  { assert (E1 : U * ((U - 1) * (m1 * 100 * D2)) * b
                 <= U * (U * (m2 * D1)) * b)
      by (apply Z.mul_le_mono_nonneg_r; [lia|];
          apply Z.mul_le_mono_nonneg_l; [unfold U; lia | exact L2]).
    assert (E2 : (U - 1) * 100 * D2 * ((U - 1) * (a * D1))
                 <= (U - 1) * 100 * D2 * (U * (m1 * b)))
      by (apply Z.mul_le_mono_nonneg_l; [unfold U; nia | exact L1]).
    nia. }
  apply Z.mul_le_mono_pos_r in G1; [|exact HD1].
  apply Z.mul_le_mono_pos_r in G2; [|exact HD1].
  destruct H3 as [H3a H3b].
  assert (K1 : U * U * (2 * (n * b)) * D2
               <= (20000 * (U + 1) * (U + 1) * a + U * U * b) * D2).
  { assert (2 * D2 * n * (U * U * b) <= (200 * m2 + D2) * (U * U * b))
      by (apply Z.mul_le_mono_nonneg_r; [unfold U; nia | exact H3a]).
    nia. }
  assert (K2 : (20000 * (U - 1) * (U - 1) * a) * D2
               < U * U * (2 * (n * b) + b) * D2).
  { assert ((200 * m2 + D2) * (U * U * b)
            < (2 * D2 * n + 2 * D2) * (U * U * b))
      by (apply Z.mul_lt_mono_pos_r; [unfold U; nia | exact H3b]).
    nia. }
  apply Z.mul_le_mono_pos_r in K1; [|exact HD2].
  apply Z.mul_lt_mono_pos_r in K2; [|exact HD2].
  unfold U in *. lia.
Qed.

Lemma log2_le_36 a : 0 < a <= 2 ^ 36 -> 0 <= Z.log2 a <= 36.
Proof.
  intros [H1 H2]. split; [apply Z.log2_nonneg|].
  apply Z.log2_le_mono in H2. now rewrite Z.log2_pow2 in H2 by lia.
Qed.

Lemma log2_lt_53 b : 0 < b < 2 ^ 53 -> 0 <= Z.log2 b <= 52.
Proof.
  intros [H1 H2]. split; [apply Z.log2_nonneg|].
  apply Z.log2_lt_pow2 in H2; lia.
Qed.

(** For a counter [a] of at most [2^36] and [b] votes, fewer than [2^53],
    [((a / b) * 100).toFixed(2)] is the exact percentage [100 * a / b] to
    within half a hundredth. *)
Lemma Number_percent_near a b :
  0 <= a <= 2 ^ 36 -> 0 < b < 2 ^ 53 ->
  exists h, toFixed2 (Number_percent a b) = PctFixed h
            /\ Z.abs (2 * b * h - 20000 * a) <= b.
Proof.
  intros Ha Hb. unfold Number_percent, Number_of_Z.
  assert ((Z.abs a <? 2 ^ 53) = true) as ->
    by (apply Z.ltb_lt; change (2 ^ 36) with 68719476736 in Ha;
        change (2 ^ 53) with 9007199254740992; lia).
  assert ((Z.abs b <? 2 ^ 53) = true) as -> by (apply Z.ltb_lt; lia).
  assert ((Z.abs 100 <? 2 ^ 53) = true) as -> by reflexivity.
  unfold Number_div.
  assert ((b =? 0) = false) as -> by (apply Z.eqb_neq; lia).
  cbn [frac Z.leb Z.compare]. rewrite !Z.pow_0_r, !Z.mul_1_r, !Z.mul_1_l.
  assert ((0 <? b) = true) as -> by (apply Z.ltb_lt; lia).
  unfold Number_value at 1.
  destruct (Z.eq_dec a 0) as [-> | Hne].
  - cbn. exists 0. split; [reflexivity | lia].
  - assert ((a =? 0) = false) as -> by (now apply Z.eqb_neq).
    assert ((0 <? a) = true) as -> by (apply Z.ltb_lt; lia).
    assert (Ha' : 0 < a <= 2 ^ 36) by lia.
    pose proof (log2_le_36 a Ha') as Hla. pose proof (log2_lt_53 b Hb) as Hlb.
    destruct (Number_value_pos_normal a b ltac:(lia) ltac:(lia)
                ltac:(lia) ltac:(lia))
      as (m1 & E1 & HE1 & HE1' & -> & N1a & N1b & N1c).
    assert (Hm1 : 2 ^ 52 <= m1 <= 2 ^ 53).
    { change (2 ^ 53) with (2 * 2 ^ 52) in *.
      remember (2 ^ 52) as C. remember (2 ^ E1) as D.
      assert (0 < C) by (subst C; reflexivity). nia. }
    unfold Number_mul. unfold frac.
    assert ((0 <=? - E1 + 0) = false) as -> by (apply Z.leb_gt; lia).
    replace (- (- E1 + 0)) with E1 by lia.
    assert (HD1 : 0 < 2 ^ E1) by (apply Z.pow_pos_nonneg; lia).
    unfold Number_value.
    assert ((m1 * 100 =? 0) = false) as ->
      by (apply Z.eqb_neq; change (2 ^ 52) with 4503599627370496 in Hm1; lia).
    assert ((0 <? m1 * 100) = true) as ->
      by (apply Z.ltb_lt; change (2 ^ 52) with 4503599627370496 in Hm1; lia).
    assert (Hl2 : 58 <= Z.log2 (m1 * 100) <= 59).
    { split.
      - apply Z.log2_le_pow2; [|change (2 ^ 58) with 288230376151711744];
          change (2 ^ 52) with 4503599627370496 in Hm1; lia.
      - assert (Z.log2 (m1 * 100) < 60); [|lia].
        apply Z.log2_lt_pow2;
          change (2 ^ 53) with 9007199254740992 in Hm1;
          change (2 ^ 52) with 4503599627370496 in Hm1;
          [|change (2 ^ 60) with 1152921504606846976]; lia. }
    destruct (Number_value_pos_normal (m1 * 100) (2 ^ E1)
                ltac:(change (2 ^ 52) with 4503599627370496 in Hm1; lia)
                HD1
                ltac:(rewrite Z.log2_pow2 by lia; lia)
                ltac:(rewrite Z.log2_pow2 by lia; lia))
      as (m2 & E2 & HE2 & HE2' & -> & N2a & N2b & N2c).
    assert (HD2 : 0 < 2 ^ E2) by (apply Z.pow_pos_nonneg; lia).
    assert (Hm2 : 0 < m2).
    { remember (2 ^ E1) as D1. remember (2 ^ E2) as D2.
      change (2 ^ 52) with 4503599627370496 in *. nia. }
    unfold toFixed2.
    assert ((0 <=? - E2) = false) as -> by (apply Z.leb_gt; lia).
    assert ((m2 <? 0) = false) as -> by (apply Z.ltb_ge; lia).
    rewrite Z.opp_involutive, (Z.abs_eq m2) by lia.
    eexists. split; [reflexivity|].
    apply (hundredths_near a b m1 (2 ^ E1) m2 (2 ^ E2)); try assumption;
      try lia.
    pose proof (Z.div_mod (200 * m2 + 2 ^ E2) (2 * 2 ^ E2) ltac:(lia)) as Hdm.
    pose proof (Z.mod_pos_bound (200 * m2 + 2 ^ E2) (2 * 2 ^ E2) ltac:(lia))
      as Hmb.
    remember ((200 * m2 + 2 ^ E2) / (2 * 2 ^ E2)) as n.
    remember ((200 * m2 + 2 ^ E2) mod (2 * 2 ^ E2)) as r.
    remember (2 ^ E2) as D2. nia.
Qed.

(** The percentages of one counter out of [b] votes, for all counters up to
    47 and all [b] from 1 to 48, are those the standard library's binary64
    operations give; and 23 out of 160 is reported as 14.37, the double
    [(23 / 160) * 100] lying just below 14.375. *)
Lemma Number_percent_binary64 :
  percent_grid_agrees 48 = true
  /\ toFixed2 (Number_percent 23 160) = PctFixed 1437
  /\ toFixed2 (Number_percent 1 800) = PctFixed 13.
Proof. split; [vm_compute; reflexivity | split; reflexivity]. Qed.

(** ** Results and percentages *)

Lemma insert_desc_length {A : Type} (key : A -> Z) x l :
  List.length (insert_desc key x l) = S (List.length l).
Proof.
  induction l as [|y l IH]; simpl; [reflexivity|].
  destruct (key y <=? key x); simpl; [reflexivity | now rewrite IH].
Qed.

Lemma sort_desc_length {A : Type} (key : A -> Z) l :
  List.length (sort_desc key l) = List.length l.
Proof.
  induction l as [|x l IH]; simpl; [reflexivity|].
  now rewrite insert_desc_length, IH.
Qed.

Lemma Zsum_insert_desc {A : Type} (key f : A -> Z) x l :
  Zsum (List.map f (insert_desc key x l)) = f x + Zsum (List.map f l).
Proof.
  induction l as [|y l IH]; simpl; [reflexivity|].
  destruct (key y <=? key x); simpl; [reflexivity|].
  unfold Zsum in *. simpl. rewrite IH. lia.
Qed.

Lemma Zsum_sort_desc {A : Type} (key f : A -> Z) l :
  Zsum (List.map f (sort_desc key l)) = Zsum (List.map f l).
Proof.
  induction l as [|x l IH]; simpl; [reflexivity|].
  rewrite Zsum_insert_desc. unfold Zsum in *. simpl. now rewrite IH.
Qed.

Lemma insert_desc_In {A : Type} (key : A -> Z) x l y :
  In y (insert_desc key x l) -> y = x \/ In y l.
Proof.
  induction l as [|z l IH]; simpl; [intros [<- | []]; now left|].
  destruct (key z <=? key x); simpl.
  - intros [<- | H]; [now left | now right].
  - intros [<- | H]; [right; now left|].
    destruct (IH H) as [-> | H']; [now left | right; now right].
Qed.

Lemma sort_desc_In {A : Type} (key : A -> Z) l y :
  In y (sort_desc key l) -> In y l.
Proof.
  induction l as [|x l IH]; simpl; [tauto|].
  intros H. apply insert_desc_In in H as [-> | H]; [now left | right; auto].
Qed.

Lemma result_entry_near total c :
  0 < total < 2 ^ 53 -> 0 <= voteCount c <= 2 ^ 36 ->
  exists h,
    res_percentage (result_entry total c) = PctFixed h
    /\ Z.abs (2 * total * h - 20000 * voteCount c) <= total.
Proof.
  intros Ht Hc. cbn [result_entry res_percentage].
  assert ((0 <? total) = true) as -> by (apply Z.ltb_lt; lia).
  now apply Number_percent_near.
Qed.

Lemma percentage_sum_near total cs :
  0 < total < 2 ^ 53 ->
  Forall (fun c => 0 <= voteCount c <= 2 ^ 36) cs ->
  Z.abs (2 * total
         * Zsum (List.map (fun e => pct_hundredths (res_percentage e))
                          (List.map (result_entry total) cs))
         - 20000 * Zsum (List.map voteCount cs))
  <= Z.of_nat (List.length cs) * total.
Proof.
  intros Ht HF. induction HF as [|c cs Hc HF IH]; [simpl; lia|].
  cbn [List.map List.length Zsum List.fold_right]. fold Zsum.
  destruct (result_entry_near total c Ht Hc) as (h & -> & Hh).
  cbn [pct_hundredths].
  fold (Zsum (List.map (fun e => pct_hundredths (res_percentage e))
                       (List.map (result_entry total) cs))).
  fold (Zsum (List.map voteCount cs)).
  lia.
Qed.

(** C5, as the handler computes it.  The denominator is the number of Vote
    documents stored for the position, valid or not.  When it is zero every
    percentage is the number 0.  Otherwise every percentage is
    [((voteCount / total) * 100).toFixed(2)], computed in double precision;
    for counters up to [2^36] and fewer than [2^53] votes that is the exact
    [100 * voteCount / total] to within half a hundredth, and the
    percentages add up to [100 * (sum of the active candidates' counters) /
    total] up to half a hundredth per candidate: to 100 when the counters
    add up to [total]. *)
Theorem resultsForPosition_percentages st pos :
  let R := resultsForPosition st pos in
  let total := Vote_countByPosition (votes st) pos in
  let n := r_totalCandidates R in
  total < 2 ^ 53 ->
  Forall (fun c => 0 <= voteCount c <= 2 ^ 36)
         (Candidate_findActive (candidates st) pos) ->
  r_totalVotes R = total
  /\ n = Z.of_nat (List.length (Candidate_findActive (candidates st) pos))
  /\ (total = 0 ->
      forall e, In e (r_results R) -> res_percentage e = PctZero)
  /\ (0 < total ->
      forall e, In e (r_results R) ->
        res_percentage e = toFixed2 (Number_percent (res_voteCount e) total)
        /\ exists h,
             res_percentage e = PctFixed h
             /\ Z.abs (2 * total * h - 20000 * res_voteCount e) <= total)
  /\ (0 < total ->
      Z.abs (2 * total * percentage_sum R
             - 20000 * active_voteCount_sum st pos) <= n * total)
  /\ (0 < total -> active_voteCount_sum st pos = total ->
      2 * Z.abs (percentage_sum R - 10000) <= n).
Proof.
  intros R total n Hbig HF.
  assert (Hlen : n = Z.of_nat (List.length (Candidate_findActive (candidates st) pos))).
  { unfold n, R, resultsForPosition. cbn [r_totalCandidates].
    now rewrite sort_desc_length. }
  assert (HF' : Forall (fun c => 0 <= voteCount c <= 2 ^ 36)
                       (sort_desc voteCount
                          (Candidate_findActive (candidates st) pos))).
  { apply List.Forall_forall. intros c Hc.
    apply (proj1 (List.Forall_forall _ _) HF). now apply sort_desc_In in Hc. }
  assert (Hsum : 0 < total ->
                 Z.abs (2 * total * percentage_sum R
                        - 20000 * active_voteCount_sum st pos) <= n * total).
  { intros Ht. unfold percentage_sum, active_voteCount_sum, R, resultsForPosition.
    cbn [r_results]. fold total.
    pose proof (percentage_sum_near total
                  (sort_desc voteCount (Candidate_findActive (candidates st) pos))
                  ltac:(lia) HF') as H.
    rewrite Zsum_sort_desc in H.
    unfold n, R, resultsForPosition. cbn [r_totalCandidates]. exact H. }
  split; [reflexivity|]. split; [exact Hlen|]. split.
  { intros H0 e He. unfold R, resultsForPosition in He. cbn [r_results] in He.
    fold total in He. rewrite H0 in He.
    apply in_map_iff in He as (c & <- & _). reflexivity. }
  split.
  { intros Ht e He. unfold R, resultsForPosition in He. cbn [r_results] in He.
    fold total in He. apply in_map_iff in He as (c & <- & Hc).
    split.
    - cbn [result_entry res_percentage res_voteCount].
      now assert ((0 <? total) = true) as -> by (apply Z.ltb_lt; exact Ht).
    - apply result_entry_near; [lia|].
      exact (proj1 (List.Forall_forall _ _) HF' c Hc). }
  split; [exact Hsum|].
  intros Ht HS. specialize (Hsum Ht). rewrite HS in Hsum. nia.
Qed.

(** C5 fails as stated.  Alice's invalid vote and Bob's valid one are
    stored for President; Xavier's counter is 1 and is the whole sum over
    the active candidates.  Xavier is reported at 50.00, not 100, and the
    percentages add up to 50. *)
Lemma percentage_law_counterexample :
  let R := resultsForPosition db_recounted "President" in
  active_voteCount_sum db_recounted "President" = 1
  /\ r_totalVotes R = 2
  /\ List.map (fun e => (res_voteCount e, res_percentage e)) (r_results R)
     = [(1, PctFixed 5000); (0, PctFixed 0)]
  /\ percentage_sum R = 5000
  /\ ~ spec_percentage_law db_recounted "President".
Proof.
  cbv zeta. repeat split; try reflexivity.
  intros (_ & _ & H).
  assert (Hs : 0 < active_voteCount_sum db_recounted "President")
    by (vm_compute; reflexivity).
  specialize (H Hs). vm_compute in H. apply H. reflexivity.
Qed.

(** ** Voting history *)

Section SortDesc.
Context {A : Type} (key : A -> Z).

Local Abbreviation ge_key := (fun a b : A => key b <= key a).

Lemma insert_desc_perm x l : Permutation (insert_desc key x l) (x :: l).
Proof.
  induction l as [|y l IH]; simpl; [reflexivity|].
  destruct (key y <=? key x); [reflexivity|].
  rewrite IH. apply perm_swap.
Qed.

Lemma sort_desc_perm l : Permutation (sort_desc key l) l.
Proof.
  induction l as [|x l IH]; simpl; [reflexivity|].
  rewrite insert_desc_perm. now constructor.
Qed.

Lemma insert_desc_sorted x l :
  StronglySorted ge_key l -> StronglySorted ge_key (insert_desc key x l).
Proof.
  induction l as [|y l IH]; simpl; intros Hs.
  - repeat constructor.
  - inversion Hs as [|? ? Hs' Hall]; subst.
    destruct (key y <=? key x) eqn:E.
    + apply Z.leb_le in E. constructor; [exact Hs|].
      constructor; [exact E|].
      eapply List.Forall_impl; [|exact Hall].
      intros z Hz. cbv beta in *. lia.
    + apply Z.leb_gt in E. constructor; [now apply IH|].
      apply (Permutation_Forall (Permutation_sym (insert_desc_perm x l))).
      constructor; [cbv beta; lia | exact Hall].
Qed.

Lemma sort_desc_sorted l : StronglySorted ge_key (sort_desc key l).
Proof.
  induction l as [|x l IH]; simpl; [constructor|].
  now apply insert_desc_sorted.
Qed.

Lemma StronglySorted_skipn n : forall l,
  StronglySorted ge_key l -> StronglySorted ge_key (List.skipn n l).
Proof.
  induction n as [|n IH]; intros l Hs; [exact Hs|].
  destruct l as [|x l]; [constructor|].
  simpl. apply IH. now inversion Hs.
Qed.

Lemma StronglySorted_firstn n : forall l,
  StronglySorted ge_key l -> StronglySorted ge_key (List.firstn n l).
Proof.
  induction n as [|n IH]; intros l Hs; [constructor|].
  destruct l as [|x l]; [constructor|].
  inversion Hs as [|? ? Hs' Hall]; subst. simpl.
  constructor; [now apply IH|].
  apply List.Forall_forall. intros z Hz.
  apply (proj1 (List.Forall_forall _ _) Hall).
  clear - Hz. revert n Hz. induction l as [|y l IHl]; intros n Hz.
  - destruct n; destruct Hz.
  - destruct n as [|n]; [destruct Hz|].
    destruct Hz as [-> | Hz]; [now left | right; eauto].
Qed.
End SortDesc.

Lemma firstn_In {A : Type} n : forall (l : list A) x,
  In x (List.firstn n l) -> In x l.
Proof.
  induction n as [|n IH]; intros [|y l] x Hx; try destruct Hx as [-> | Hx];
    try (now left); try (right; eauto); try destruct Hx.
Qed.

Lemma skipn_In {A : Type} n : forall (l : list A) x,
  In x (List.skipn n l) -> In x l.
Proof.
  induction n as [|n IH]; intros [|y l] x Hx; try exact Hx.
  right. now apply IH.
Qed.

Lemma nth_error_firstn_lt {A : Type} n : forall (l : list A) k,
  (k < n)%nat -> List.nth_error (List.firstn n l) k = List.nth_error l k.
Proof.
  induction n as [|n IH]; intros l k Hk; [lia|].
  destruct l as [|x l]; [reflexivity|].
  destruct k as [|k]; [reflexivity|]. simpl. apply IH. lia.
Qed.

Lemma nth_error_skipn_add {A : Type} s : forall (l : list A) k,
  List.nth_error (List.skipn s l) k = List.nth_error l (s + k).
Proof.
  induction s as [|s IH]; intros l k; [reflexivity|].
  destruct l as [|x l]; [now destruct k|]. simpl. apply IH.
Qed.

Lemma ceil_div_spec total limit :
  0 < limit ->
  (ceil_div total limit - 1) * limit < total <= ceil_div total limit * limit.
Proof.
  intros Hl. unfold ceil_div.
  pose proof (Z.div_mod (total + limit - 1) limit (ltac:(lia))) as Hdm.
  pose proof (Z.mod_pos_bound (total + limit - 1) limit (ltac:(lia))) as Hm.
  remember ((total + limit - 1) / limit) as q.
  remember ((total + limit - 1) mod limit) as m. nia.
Qed.

Lemma map_pv_vote_populate cs l :
  List.map pv_vote (List.map (populate_candidate cs) l) = l.
Proof.
  induction l as [|v l IH]; simpl; [reflexivity | now rewrite IH].
Qed.

(** C7.  For [page >= 1] and [limit >= 1] the history handler answers with
    votes of the caller only, all taken from the store, most recent first;
    the page is the slice of the caller's votes, sorted by descending
    creation time, that starts at offset [(page - 1) * limit] and holds at
    most [limit] votes; [total] counts the caller's votes and [totalPages]
    is the least number of pages of [limit] votes that holds them all. *)
Theorem votingHistory_page st u page limit :
  1 <= page ->
  1 <= limit ->
  let mine := Vote_findByVoter (votes st) (user_id u) in
  let sorted := sort_desc createdAt mine in
  exists h,
    votingHistory st u page limit = Some h
    /\ Permutation sorted mine
    /\ StronglySorted (fun a b => createdAt b <= createdAt a) sorted
    /\ Forall (fun v => voter v = user_id u /\ In v (votes st))
              (List.map pv_vote (h_votes h))
    /\ StronglySorted (fun a b => createdAt b <= createdAt a)
                      (List.map pv_vote (h_votes h))
    /\ (forall k, (k < Z.to_nat limit)%nat ->
          List.nth_error (List.map pv_vote (h_votes h)) k
          = List.nth_error sorted (Z.to_nat ((page - 1) * limit) + k))
    /\ (List.length (h_votes h) <= Z.to_nat limit)%nat
    /\ h_currentPage h = page
    /\ h_total h = Z.of_nat (List.length mine)
    /\ (h_totalPages h - 1) * limit < h_total h <= h_totalPages h * limit.
Proof.
  intros Hp Hl mine sorted. unfold votingHistory.
  assert (((1 <=? page) && (1 <=? limit))%bool = true) as ->.
  { apply andb_true_intro. split; now apply Z.leb_le. }
  eexists. split; [reflexivity|].
  cbn [h_votes h_totalPages h_currentPage h_total].
  fold mine. fold sorted. rewrite map_pv_vote_populate.
  replace (limit * 1) with limit by lia.
  split; [apply sort_desc_perm|].
  split; [apply (sort_desc_sorted createdAt)|].
  split.
  { apply List.Forall_forall. intros v Hv.
    apply firstn_In, skipn_In in Hv.
    apply (Permutation_in _ (sort_desc_perm createdAt mine)) in Hv.
    unfold mine, Vote_findByVoter in Hv. apply List.filter_In in Hv as [Hin Hv].
    split; [now apply N.eqb_eq | exact Hin]. }
  split.
  { apply StronglySorted_firstn, StronglySorted_skipn.
    apply (sort_desc_sorted createdAt). }
  split.
  { intros k Hk. now rewrite nth_error_firstn_lt, nth_error_skipn_add. }
  split.
  { rewrite List.length_map. apply List.firstn_le_length. }
  split; [reflexivity|]. split; [reflexivity|].
  apply ceil_div_spec. lia.
Qed.

(** ** Rate limiting of authentication attempts *)

(** A request of another address leaves the entry of [ip] alone. *)
Lemma rateLimitAuth_other (m : gmap string Attempt) ip ip' now :
  ip' <> ip -> snd (rateLimitAuth m ip' now) !! ip = m !! ip.
Proof.
  intros Hne. unfold rateLimitAuth.
  destruct (maxAttempts <=? _); cbn [snd]; now rewrite lookup_insert_ne.
Qed.

(** A request inside the current window: refused without a trace once the
    counter is at the maximum, counted otherwise. *)
Lemma rateLimitAuth_in_window (m : gmap string Attempt) ip now a :
  m !! ip = Some a ->
  now <= resetTime a ->
  rateLimitAuth m ip now
  = if maxAttempts <=? count a
    then (TooMany (ceil_seconds (resetTime a - now)), m)
    else (Next, <[ip := mkAttempt (count a + 1) (resetTime a)]> m).
Proof.
  intros Hm Hnow. unfold rateLimitAuth. rewrite Hm.
  assert ((resetTime a <? now) = false) as -> by (apply Z.ltb_ge; exact Hnow).
  destruct (maxAttempts <=? count a); [|reflexivity].
  now rewrite (insert_id m ip a Hm).
Qed.

(** The first request after the window is over, or from an unknown address,
    opens a new window and is counted as its first attempt. *)
Lemma rateLimitAuth_opens (m : gmap string Attempt) ip now :
  (m !! ip = None \/ exists a, m !! ip = Some a /\ resetTime a < now) ->
  rateLimitAuth m ip now
  = (Next, <[ip := mkAttempt 1 (now + windowMs)]> m).
Proof.
  intros H. unfold rateLimitAuth.
  destruct H as [-> | (a & -> & Ha)].
  - cbn [resetTime count].
    assert ((now + windowMs <? now) = false) as ->
      by (apply Z.ltb_ge; unfold windowMs; lia).
    reflexivity.
  - assert ((resetTime a <? now) = true) as -> by (apply Z.ltb_lt; exact Ha).
    reflexivity.
Qed.

(** Inside one window the counter of [ip] grows by one per accepted request
    of [ip], never beyond the maximum, and the end of the window stays put. *)
Lemma rateLimit_run_in_window ip reqs : forall (m : gmap string Attempt) a,
  m !! ip = Some a ->
  count a <= maxAttempts ->
  Forall (fun q => fst q = ip -> snd q <= resetTime a) reqs ->
  exists a',
    snd (rateLimit_run m reqs) !! ip = Some a'
    /\ resetTime a' = resetTime a
    /\ count a' = count a + accepted_for ip reqs (fst (rateLimit_run m reqs))
    /\ count a' <= maxAttempts.
Proof.
  induction reqs as [|[ip' now] reqs IH]; intros m a Hm Hcount HF.
  - exists a. cbn. repeat split; [exact Hm | lia | exact Hcount].
  - inversion HF as [|? ? Hq HF']; subst. cbn [fst snd] in Hq.
    cbn [rateLimit_run].
    destruct (rateLimitAuth m ip' now) as [d m1] eqn:Hstep.
    destruct (rateLimit_run m1 reqs) as [ds m2] eqn:Hrun.
    cbn [fst snd accepted_for].
    destruct (String.eqb ip' ip) eqn:E.
    + apply String.eqb_eq in E. subst ip'.
      rewrite (rateLimitAuth_in_window m ip now a Hm (Hq eq_refl)) in Hstep.
      destruct (maxAttempts <=? count a) eqn:Hmax.
      * injection Hstep as <- <-.
        destruct (IH m a Hm Hcount HF') as (a' & H1 & H2 & H3 & H4).
        rewrite Hrun in H1, H3. cbn [fst snd] in H1, H3.
        exists a'. cbn [is_next andb]. repeat split; try assumption; lia.
      * injection Hstep as <- <-. apply Z.leb_gt in Hmax.
        destruct (IH (<[ip := mkAttempt (count a + 1) (resetTime a)]> m)
                     (mkAttempt (count a + 1) (resetTime a)))
          as (a' & H1 & H2 & H3 & H4).
        { apply lookup_insert_eq. }
        { cbn [count]. lia. }
        { exact HF'. }
        rewrite Hrun in H1, H3. cbn [fst snd count resetTime] in H1, H2, H3.
        exists a'. cbn [is_next andb]. repeat split; try assumption; lia.
    + assert (Hne : ip' <> ip) by (intros ->; now rewrite String.eqb_refl in E).
      pose proof (rateLimitAuth_other m ip ip' now Hne) as Hother.
      rewrite Hstep in Hother. cbn [snd] in Hother.
      destruct (IH m1 a) as (a' & H1 & H2 & H3 & H4);
        [now rewrite Hother | exact Hcount | exact HF' |].
      rewrite Hrun in H1, H3. cbn [fst snd] in H1, H3.
      exists a'. cbn [andb]. repeat split; try assumption; lia.
Qed.

(** C8.  The limiter is a fixed window per client address.  A request from
    an address that has no entry, or whose window is over, is let through
    and opens a window of 15 minutes with the counter at 1.  Whatever
    requests follow, from this and other addresses, as long as those of
    this address fall inside the window: at most 5 of its requests,
    the opening one included, are let through; once the counter has
    reached 5, every further request of the address inside the window is
    answered 429 and changes nothing; and the first request after the
    window is let through and opens a new window with the counter at 1. *)
Theorem rateLimitAuth_fixed_window (m : gmap string Attempt) ip t0 reqs :
  (m !! ip = None \/ exists a, m !! ip = Some a /\ resetTime a < t0) ->
  Forall (fun q => fst q = ip -> snd q <= t0 + windowMs) reqs ->
  let m0 := snd (rateLimitAuth m ip t0) in
  let run := rateLimit_run m0 reqs in
  windowMs = 900000 /\ maxAttempts = 5
  /\ fst (rateLimitAuth m ip t0) = Next
  /\ m0 !! ip = Some (mkAttempt 1 (t0 + windowMs))
  /\ 1 + accepted_for ip reqs (fst run) <= maxAttempts
  /\ exists a,
       snd run !! ip = Some a
       /\ resetTime a = t0 + windowMs
       /\ count a = 1 + accepted_for ip reqs (fst run)
       /\ (count a = maxAttempts ->
           forall t, t <= t0 + windowMs ->
             rateLimitAuth (snd run) ip t
             = (TooMany (ceil_seconds (t0 + windowMs - t)), snd run))
       /\ (forall t, t0 + windowMs < t ->
             rateLimitAuth (snd run) ip t
             = (Next, <[ip := mkAttempt 1 (t + windowMs)]> (snd run))).
Proof.
  intros Hopen HF. cbv zeta.
  rewrite (rateLimitAuth_opens m ip t0 Hopen). cbn [fst snd].
  set (run := rateLimit_run _ reqs).
  split; [reflexivity|]. split; [reflexivity|]. split; [reflexivity|].
  assert (H0 : (<[ip := mkAttempt 1 (t0 + windowMs)]> m) !! ip
               = Some (mkAttempt 1 (t0 + windowMs)))
    by apply lookup_insert_eq.
  split; [exact H0|].
  destruct (rateLimit_run_in_window ip reqs _ _ H0) as (a & H1 & H2 & H3 & H4).
  { cbn [count]. unfold maxAttempts. lia. }
  { exact HF. }
  fold run in H1, H3. cbn [count resetTime] in H2, H3.
  split; [lia|].
  exists a. split; [exact H1|]. split; [exact H2|]. split; [exact H3|]. split.
  - intros Hfull t Ht.
    rewrite (rateLimitAuth_in_window (snd run) ip t a H1) by lia.
    assert ((maxAttempts <=? count a) = true) as -> by (apply Z.leb_le; lia).
    now rewrite H2.
  - intros t Ht. apply rateLimitAuth_opens. right. exists a.
    split; [exact H1 | lia].
Qed.

(** The periodic clean-up never changes what the limiter decides later. *)
Lemma cleanup_attempts_transparent (m : gmap string Attempt) ip now t :
  now <= t ->
  fst (rateLimitAuth (cleanup_attempts m now) ip t)
  = fst (rateLimitAuth m ip t).
Proof.
  intros Ht. unfold rateLimitAuth, cleanup_attempts.
  destruct (m !! ip) as [a|] eqn:Hm.
  - destruct (decide (resetTime a < now)) as [Hold | Hlive].
    + assert (filter (fun kv => ¬ (resetTime (snd kv) < now)) m !! ip = None)
        as ->.
      { apply map_lookup_filter_None. right. intros a' Ha'.
        rewrite Hm in Ha'. injection Ha' as <-. cbn [snd]. tauto. }
      cbn [resetTime count].
      assert ((now + windowMs <? now) = false) as Hw
        by (apply Z.ltb_ge; unfold windowMs; lia).
      assert ((t + windowMs <? t) = false) as ->
        by (apply Z.ltb_ge; unfold windowMs; lia).
      assert ((resetTime a <? t) = true) as -> by (apply Z.ltb_lt; lia).
      reflexivity.
    + assert (filter (fun kv => ¬ (resetTime (snd kv) < now)) m !! ip = Some a)
        as ->.
      { apply map_lookup_filter_Some. split; [exact Hm | exact Hlive]. }
      destruct (resetTime a <? t); cbn [count];
        destruct (maxAttempts <=? _); reflexivity.
  - assert (filter (fun kv => ¬ (resetTime (snd kv) < now)) m !! ip = None)
      as ->.
    { apply map_lookup_filter_None. now left. }
    destruct (maxAttempts <=? _); reflexivity.
Qed.

(** * The theorems at work on the small election *)


(** Dave's three ballots for President against the store that holds Alice's
    and Bob's votes: 500 with the vote stored, then 400 twice. *)
Lemma castVote_once_per_position_witness :
  List.NoDup (List.map index_key (votes db_two_votes))
  /\ votes_of (votes db_two_votes) 4%N "President" = 0%nat
  /\ castable db_two_votes (ballot dave 11%N "President" 3000) = true
  /\ List.map http_status
       (fst (ledger_run db_two_votes (List.map OpCast dave_ballots)))
     = [500; 400; 400]
  /\ response (castVote db_two_votes (ballot dave 11%N "President" 3000))
     = ServerError
  /\ votes_of
       (votes (db_after (castVote db_two_votes
                           (ballot dave 11%N "President" 3000))))
       4%N "President" = 1%nat
  /\ response
       (castVote (db_after (castVote db_two_votes
                              (ballot dave 11%N "President" 3000)))
                 (ballot dave 10%N " President " 3001))
     = DuplicateVote.
Proof.
  assert (H1 : List.NoDup (List.map index_key (votes db_two_votes))).
  { vm_compute. repeat constructor; simpl; intuition discriminate. }
  pose proof (castVote_once_per_position db_two_votes 4%N "President"
                (ballot dave 11%N "President" 3000)
                H1 eq_refl eq_refl eq_refl eq_refl) as H.
  cbv zeta in H. destruct H as (Hr & _ & _ & Hafter & _).
  destruct (Hafter []) as (Hone & _ & Hdup).
  destruct (Hdup (ballot dave 10%N " President " 3001) eq_refl eq_refl)
    as (_ & Hd & _).
  split; [exact H1|]. split; [reflexivity|]. split; [reflexivity|].
  split; [reflexivity|]. split; [exact Hr|]. split; [exact Hone|].
  exact (proj1 (Hd eq_refl)).
Defined.




(** The results for President in the store whose counters are right: the
    two percentages add up to 100, give or take a hundredth. *)
Lemma resultsForPosition_percentages_witness :
  Vote_countByPosition (votes db_counted) "President" = 2
  /\ Forall (fun c => 0 <= voteCount c <= 2 ^ 36)
            (Candidate_findActive (candidates db_counted) "President")
  /\ active_voteCount_sum db_counted "President" = 2
  /\ 2 * Z.abs (percentage_sum (resultsForPosition db_counted "President")
                - 10000)
     <= r_totalCandidates (resultsForPosition db_counted "President").
Proof.
  assert (HF : Forall (fun c => 0 <= voteCount c <= 2 ^ 36)
                      (Candidate_findActive (candidates db_counted) "President")).
  { repeat constructor; cbn; try lia; discriminate. }
  pose proof (resultsForPosition_percentages db_counted "President"
                ltac:(reflexivity) HF) as H.
  cbv zeta in H. destruct H as (_ & _ & _ & _ & _ & Hsum).
  split; [reflexivity|]. split; [exact HF|]. split; [reflexivity|].
  apply Hsum; reflexivity.
Defined.

(** After the invalidation of Alice's vote, and more ledger traffic, Alice
    votes for President again. *)
Lemma invalidated_vote_keeps_slot_witness :
  let ops := [OpCast (ballot dave 11%N "President" 3000);
              OpInvalidate carol 101%N] in
  let st2 := ledger_exec (db_after (invalidateVote db_two_votes carol 100%N))
                         ops in
  let again := ballot alice 11%N "President" 9000 in
  castable st2 again = true
  /\ response (castVote st2 again) = DuplicateVote
  /\ db_after (castVote st2 again) = st2.
Proof.
  cbv zeta.
  pose proof (invalidated_vote_keeps_slot db_two_votes carol 100%N alice_vote
                [OpCast (ballot dave 11%N "President" 3000);
                 OpInvalidate carol 101%N]
                (ballot alice 11%N "President" 9000)
                eq_refl eq_refl eq_refl eq_refl) as H.
  cbv zeta in H. destruct H as (_ & _ & Hdb & Hdup).
  split; [reflexivity|]. split; [exact (proj1 (Hdup eq_refl)) | exact Hdb].
Defined.

(** Alice's history, one vote per page: the vote for Mayor, cast last, is on
    page 1 of 2. *)
Lemma votingHistory_page_witness :
  exists h,
    votingHistory db_history alice 1 1 = Some h
    /\ List.map (fun pv => position (pv_vote pv)) (h_votes h) = ["Mayor"%string]
    /\ h_total h = 2
    /\ h_totalPages h = 2.
Proof.
  destruct (votingHistory_page db_history alice 1 1 ltac:(lia) ltac:(lia))
    as (h & Hh & _).
  exists h. split; [exact Hh|].
  vm_compute in Hh. injection Hh as <-. repeat split; reflexivity.
Defined.

(** One address sends seven requests inside a window opened at time 0: five
    attempts are let through, the opening one included. *)
Lemma rateLimitAuth_fixed_window_witness :
  let m0 := snd (rateLimitAuth ∅ "10.0.0.7" 0) in
  (∅ : gmap string Attempt) !! "10.0.0.7"%string = None
  /\ fst (rateLimitAuth ∅ "10.0.0.7" 0) = Next
  /\ 1 + accepted_for "10.0.0.7" auth_requests
           (fst (rateLimit_run m0 auth_requests)) <= maxAttempts
  /\ List.map is_next (fst (rateLimit_run m0 auth_requests))
     = [true; true; true; true; true; false; false].
Proof.
  cbv zeta.
  assert (H1 : (∅ : gmap string Attempt) !! "10.0.0.7"%string = None)
    by apply lookup_empty.
  assert (H2 : Forall (fun q : string * Z =>
                         fst q = "10.0.0.7"%string -> snd q <= 0 + windowMs)
                      auth_requests).
  { unfold auth_requests, windowMs.
    repeat constructor; cbn [fst snd]; intros _; lia. }
  pose proof (rateLimitAuth_fixed_window ∅ "10.0.0.7" 0 auth_requests
                (or_introl H1) H2) as H.
  cbv zeta in H. destruct H as (_ & _ & Hn & _ & Hle & _).
  split; [exact H1|]. split; [exact Hn|]. split; [exact Hle|].
  vm_compute. reflexivity.
Defined.


(** * Further properties of the vote ledger *)

Lemma db_recorded_changed st r : db_recorded st r <> st.
Proof.
  intros H. apply (f_equal (fun d => List.length (votes d))) in H.
  cbn [db_recorded votes] in H. rewrite List.length_app in H.
  cbn [List.length] in H. lia.
Qed.

Lemma Vote_insert_valid vs v vs' :
  Vote_insert vs v = Some vs' -> Vote_validate v = true.
Proof.
  unfold Vote_insert. destruct (Vote_validate v); [reflexivity | discriminate].
Qed.

(** The store a submission leaves behind. *)
Lemma castVote_db_after st r :
  db_after (castVote st r) = if records st r then db_recorded st r else st.
Proof.
  unfold records.
  destruct (castVote_cases st r)
    as [(Hdb & _) | (c & Hfind & Hact & Hnone & Hins & H)].
  - destruct (castable st r) eqn:Hc; [|exact Hdb].
    destruct (Vote_findOne _ _ _) eqn:Hnone; [exact Hdb|].
    exfalso. rewrite (castVote_recorded st r Hc Hnone) in Hdb.
    exact (db_recorded_changed st r Hdb).
  - rewrite H, Hnone. cbn [db_after].
    apply Vote_insert_valid in Hins. unfold Vote_validate in Hins.
    cbn [new_Vote position ipAddress userAgent] in Hins.
    unfold castable. now rewrite Hins, Hfind, Hact.
Qed.


(** With one request handled at a time, the submit handler answers 500
    exactly when the request gets past its three checks: the position is
    not empty, the candidate exists and is active, and the voter holds no
    vote for the position.  From there on either the insert is refused, or
    the save of the candidate is. *)
Theorem castVote_server_error_iff st r :
  response (castVote st r) = ServerError
  <-> (nonempty (req_position r) = true
       /\ (exists c, Candidate_findById (candidates st) (req_candidateId r)
                     = Some c /\ isActive c = true)
       /\ Vote_findOne (votes st) (user_id (req_user r)) (req_position r)
          = None).
Proof.
  unfold castVote.
  destruct (nonempty (req_position r)) eqn:Hp; cbn [negb];
    [|cbn; split; [discriminate | intros (H & _); discriminate]].
  destruct (Candidate_findById _ _) as [c|] eqn:Hc;
    [|cbn; split; [discriminate | intros (_ & (c & H & _) & _); discriminate]].
  destruct (isActive c) eqn:Hact; cbn [negb];
    [|cbn; split; [discriminate|];
      intros (_ & (c' & H & H') & _); congruence].
  destruct (Vote_findOne _ _ _) eqn:Hone;
    [cbn; split; [discriminate | intros (_ & _ & H); discriminate]|].
  split; [intros _; repeat split; eauto|]. intros _.
  destruct (castVote_record_cases st r c) as [[_ ->] | [_ ->]]; reflexivity.
Qed.

Lemma Vote_countByPosition_app vs ws pos :
  Vote_countByPosition (vs ++ ws) pos
  = Vote_countByPosition vs pos + Vote_countByPosition ws pos.
Proof.
  unfold Vote_countByPosition. rewrite List.filter_app, List.length_app. lia.
Qed.

Lemma Vote_findById_save_other vs v' i :
  i <> vote_id v' ->
  Vote_findById (Vote_save vs v') i = Vote_findById vs i.
Proof.
  intros Hne. unfold Vote_findById.
  induction vs as [|d vs IH]; simpl; [reflexivity|].
  destruct (N.eqb (vote_id d) (vote_id v')) eqn:E; simpl.
  - apply N.eqb_eq in E.
    destruct (N.eqb (vote_id v') i) eqn:E1;
      [apply N.eqb_eq in E1; congruence|].
    destruct (N.eqb (vote_id d) i) eqn:E2; [|reflexivity].
    apply N.eqb_eq in E2. congruence.
  - destruct (N.eqb (vote_id d) i); [reflexivity | exact IH].
Qed.

Lemma Vote_save_map {B : Type} (f : Vote -> B) vs v v' :
  vote_id v' = vote_id v ->
  f v' = f v ->
  Vote_findById vs (vote_id v) = Some v ->
  List.map f (Vote_save vs v') = List.map f vs.
Proof.
  intros Hid Hf. unfold Vote_findById.
  induction vs as [|d vs IH]; simpl; [reflexivity|].
  rewrite Hid.
  destruct (N.eqb (vote_id d) (vote_id v)) eqn:E; simpl.
  - intros [= ->]. now rewrite Hf.
  - intros H. f_equal. now apply IH.
Qed.

(** What an invalidation leaves as it was (see [invalidateVote_frame]). *)
Lemma invalidateVote_effect st u id :
  let st' := db_after (invalidateVote st u id) in
  List.map (fun v => set_isValid v true) (votes st')
  = List.map (fun v => set_isValid v true) (votes st)
  /\ (forall i, i <> id ->
        Vote_findById (votes st') i = Vote_findById (votes st) i)
  /\ List.map (fun c => set_voteCount c 0) (candidates st')
     = List.map (fun c => set_voteCount c 0) (candidates st)
  /\ (forall cid,
        (forall v, Vote_findById (votes st) id = Some v -> candidate v <> cid) ->
        Candidate_findById (candidates st') cid
        = Candidate_findById (candidates st) cid)
  /\ nextId st' = nextId st.
Proof.
  cbv zeta. rewrite invalidateVote_candidates.
  assert (Hvotes :
    List.map (fun v => set_isValid v true)
             (votes (db_after (invalidateVote st u id)))
    = List.map (fun v => set_isValid v true) (votes st)
    /\ (forall i, i <> id ->
          Vote_findById (votes (db_after (invalidateVote st u id))) i
          = Vote_findById (votes st) i)
    /\ nextId (db_after (invalidateVote st u id)) = nextId st).
  { unfold invalidateVote.
    destruct (role u); [cbn; repeat split; reflexivity|].
    destruct (Vote_findById (votes st) id) as [v|] eqn:Hv;
      [|cbn; repeat split; reflexivity].
    pose proof (Vote_findById_id _ _ _ Hv) as Hvid.
    assert (Hvs : List.map (fun v => set_isValid v true)
                    (Vote_save (votes st) (set_isValid v false))
                  = List.map (fun v => set_isValid v true) (votes st)).
    { apply (Vote_save_map _ _ v); [reflexivity | reflexivity |].
      now rewrite Hvid. }
    assert (Hoth : forall i, i <> id ->
              Vote_findById (Vote_save (votes st) (set_isValid v false)) i
              = Vote_findById (votes st) i).
    { intros i Hi. apply Vote_findById_save_other.
      cbn [set_isValid vote_id]. congruence. }
    destruct (Candidate_findById _ _);
      [destruct (Candidate_save _ _ _)|];
      cbn [reply db_after votes nextId]; repeat split; assumption. }
  destruct Hvotes as (Hvs & Hoth & Hn).
  split; [exact Hvs|]. split; [exact Hoth|]. split; [reflexivity|].
  split; [reflexivity | exact Hn].
Qed.

(** An invalidation, whoever asks for it and whatever it answers, neither
    adds nor removes a Vote document and rewrites no field of any vote but
    [isValid]; votes stored under other ids are untouched; no candidate is
    added, removed or changed but for [voteCount], and only the candidate
    the target vote references can see its counter change. *)
Theorem invalidateVote_frame st u id :
  let st' := db_after (invalidateVote st u id) in
  List.map (fun v => set_isValid v true) (votes st')
  = List.map (fun v => set_isValid v true) (votes st)
  /\ (forall i, i <> id ->
        Vote_findById (votes st') i = Vote_findById (votes st) i)
  /\ List.map (fun c => set_voteCount c 0) (candidates st')
     = List.map (fun c => set_voteCount c 0) (candidates st)
  /\ (forall cid,
        (forall v, Vote_findById (votes st) id = Some v -> candidate v <> cid) ->
        Candidate_findById (candidates st') cid
        = Candidate_findById (candidates st) cid)
  /\ nextId st' = nextId st.
Proof.
  cbv zeta.
  destruct (invalidateVote_effect st u id) as (Hvotes & Hother & Hcands & Hc & Hn).
  split; [exact Hvotes|]. split; [exact Hother|]. split; [exact Hcands|].
  split; [exact Hc | exact Hn].
Qed.

Lemma ledger_step_vote_persists st op i w :
  Vote_findById (votes st) i = Some w ->
  exists w',
    Vote_findById (votes (db_after (ledger_step st op))) i = Some w'
    /\ set_isValid w' true = set_isValid w true
    /\ (isValid w = false -> isValid w' = false).
Proof.
  intros Hw. destruct op as [r | u id]; cbn [ledger_step].
  - exists w. split; [|now split].
    destruct (castVote_cases st r) as [(-> & _) | (c & _ & _ & _ & _ & ->)];
      [exact Hw|].
    cbn [db_after db_recorded votes]. now apply Vote_findById_app.
  - destruct (N.eq_dec i id) as [-> | Hne].
    + unfold invalidateVote. destruct (role u); [now exists w|].
      rewrite Hw. pose proof (Vote_findById_id _ _ _ Hw) as Hid.
      exists (set_isValid w false). split; [|now split].
      assert (Vote_findById (Vote_save (votes st) (set_isValid w false)) id
              = Some (set_isValid w false)) as Hs.
      { rewrite <- Hid. apply Vote_findById_save_same; [reflexivity|].
        now rewrite Hid. }
      cbn [set_isValid candidate].
      destruct (Candidate_findById _ _); [|exact Hs].
      destruct (Candidate_save _ _ _); exact Hs.
    + exists w. split; [|now split].
      destruct (invalidateVote_effect st u id) as (_ & Hoth & _).
      now rewrite (Hoth i Hne).
Qed.

(** No ledger operation deletes a vote, rewrites one, or makes an invalid
    vote valid again: after any run a stored vote is still found under its
    id with the same voter, candidate, position and time, and if it was
    invalid it still is. *)
Theorem ledger_votes_persist ops : forall st i w,
  Vote_findById (votes st) i = Some w ->
  exists w',
    Vote_findById (votes (ledger_exec st ops)) i = Some w'
    /\ set_isValid w' true = set_isValid w true
    /\ (isValid w = false -> isValid w' = false).
Proof.
  induction ops as [|op ops IH]; intros st i w Hw.
  - exists w. now repeat split.
  - rewrite ledger_exec_cons.
    destruct (ledger_step_vote_persists st op i w Hw) as (w1 & H1 & H2 & H3).
    destruct (IH _ i w1 H1) as (w' & H1' & H2' & H3').
    exists w'. split; [exact H1'|]. split; [congruence | auto].
Qed.

(** The ledger never creates, deletes, renames, moves, activates or
    deactivates a candidate: after any run the Candidate collection is the
    one it started from, counters apart. *)
Theorem ledger_keeps_candidates ops : forall st,
  List.map (fun c => set_voteCount c 0) (candidates (ledger_exec st ops))
  = List.map (fun c => set_voteCount c 0) (candidates st).
Proof. intros st. now rewrite ledger_exec_candidates_same. Qed.



(** * Further properties of the read queries *)

Lemma StronglySorted_result_entries total cs :
  StronglySorted (fun a b => voteCount b <= voteCount a) cs ->
  StronglySorted (fun a b => res_voteCount b <= res_voteCount a)
                 (List.map (result_entry total) cs).
Proof.
  induction 1 as [|c cs Hs IH Hall]; simpl; constructor; [exact IH|].
  apply List.Forall_forall. intros e He.
  apply in_map_iff in He as (d & <- & Hd).
  exact (proj1 (List.Forall_forall _ _) Hall d Hd).
Qed.

(** The results of a position list exactly its active candidates, each once,
    highest counter first; inactive candidates and candidates of other
    positions never appear, and [totalCandidates] is the number of lines. *)
Theorem resultsForPosition_listing st pos :
  let R := resultsForPosition st pos in
  Permutation (r_results R)
              (List.map (result_entry (r_totalVotes R))
                        (Candidate_findActive (candidates st) pos))
  /\ StronglySorted (fun a b => res_voteCount b <= res_voteCount a)
                    (r_results R)
  /\ (forall e, In e (r_results R) <->
        exists c, In c (candidates st) /\ isActive c = true
                  /\ cand_position c = trim pos
                  /\ e = result_entry (r_totalVotes R) c)
  /\ r_totalCandidates R = Z.of_nat (List.length (r_results R)).
Proof.
  cbv zeta. unfold resultsForPosition.
  cbn [r_results r_totalVotes r_totalCandidates].
  set (total := Vote_countByPosition (votes st) pos).
  set (act := Candidate_findActive (candidates st) pos).
  assert (Hperm : Permutation (List.map (result_entry total)
                                        (sort_desc voteCount act))
                              (List.map (result_entry total) act))
    by (apply Permutation_map, sort_desc_perm).
  split; [exact Hperm|]. split.
  { apply StronglySorted_result_entries, (sort_desc_sorted voteCount). }
  split; [|now rewrite List.length_map].
  intros e. split.
  - intros He. apply (Permutation_in _ Hperm) in He.
    apply in_map_iff in He as (c & <- & Hc).
    unfold act, Candidate_findActive in Hc.
    apply List.filter_In in Hc as [Hin Hf].
    apply andb_prop in Hf as [Hp Ha]. apply String.eqb_eq in Hp.
    exists c. repeat split; assumption.
  - intros (c & Hin & Ha & Hp & ->).
    apply (Permutation_in _ (Permutation_sym Hperm)).
    apply List.in_map. unfold act, Candidate_findActive.
    apply List.filter_In. split; [exact Hin|].
    now rewrite Hp, String.eqb_refl, Ha.
Qed.

(** A submission that gets its Vote inserted raises [totalVotes] of the
    results of the position it is recorded under by one, whatever the
    answer; the totals of every other position, and all totals after any
    other submission, stay as they were. *)
Theorem resultsForPosition_total_after_submission st r pos :
  r_totalVotes (resultsForPosition (db_after (castVote st r)) pos)
  = r_totalVotes (resultsForPosition st pos)
    + (if (records st r && String.eqb (trim (req_position r)) (trim pos))%bool
       then 1 else 0).
Proof.
  rewrite castVote_db_after. destruct (records st r); cbn [andb]; [|lia].
  unfold resultsForPosition. cbn [r_totalVotes db_recorded votes].
  rewrite Vote_countByPosition_app. f_equal.
  unfold Vote_countByPosition. cbn [List.filter new_Vote position].
  destruct (String.eqb (trim (req_position r)) (trim pos)); reflexivity.
Qed.

(** An invalidation changes no total of any position's results, and neither
    which candidates are listed nor how many: the Vote document stays and
    no candidate joins or leaves a position. *)
Theorem resultsForPosition_after_invalidate st u id pos :
  let R := resultsForPosition st pos in
  let R' := resultsForPosition (db_after (invalidateVote st u id)) pos in
  r_totalVotes R' = r_totalVotes R
  /\ r_totalCandidates R' = r_totalCandidates R
  /\ Permutation (List.map res_id (r_results R'))
                 (List.map res_id (r_results R)).
Proof.
  cbv zeta.
  destruct (invalidateVote_effect st u id) as (Hvs & _ & Hcs & _).
  set (st' := db_after (invalidateVote st u id)) in *.
  assert (Hpos : List.map position (votes st') = List.map position (votes st)).
  { apply (f_equal (List.map position)) in Hvs.
    rewrite !List.map_map in Hvs. exact Hvs. }
  assert (Hact : List.map cand_id (Candidate_findActive (candidates st') pos)
                 = List.map cand_id (Candidate_findActive (candidates st) pos)).
  { unfold Candidate_findActive. revert Hcs.
    generalize (candidates st') (candidates st).
    induction l as [|c cs IH]; intros [|d ds] H; try discriminate;
      [reflexivity|].
    simpl in H. injection H as Hid Hn Hpa Hd Hi Hp Ha Hs Hrest.
    simpl. rewrite Hp, Ha.
    destruct (String.eqb (cand_position d) (trim pos) && isActive d)%bool;
      simpl; [f_equal; [exact Hid|] |]; now apply IH. }
  assert (Htot : Vote_countByPosition (votes st') pos
                 = Vote_countByPosition (votes st) pos).
  { unfold Vote_countByPosition. f_equal. revert Hpos.
    generalize (votes st') (votes st).
    induction l as [|a l IH]; intros [|b l'] H; try discriminate;
      [reflexivity|].
    simpl in H. injection H as Hab Hrest. simpl. rewrite Hab.
    destruct (String.eqb (position b) (trim pos)); simpl;
      [f_equal|]; now apply IH. }
  unfold resultsForPosition. cbn [r_totalVotes r_totalCandidates r_results].
  split; [exact Htot|]. split.
  { rewrite !sort_desc_length.
    apply (f_equal (@List.length _)) in Hact.
    rewrite !List.length_map in Hact. now rewrite Hact. }
  rewrite !List.map_map. cbn [result_entry res_id].
  rewrite <- (List.map_map (fun c => c) cand_id), List.map_id.
  rewrite <- (List.map_map (fun c => c) cand_id
               (sort_desc voteCount (Candidate_findActive (candidates st) pos))),
    List.map_id.
  rewrite (Permutation_map cand_id (sort_desc_perm voteCount _)).
  rewrite (Permutation_map cand_id
             (sort_desc_perm voteCount
                (Candidate_findActive (candidates st) pos))).
  now rewrite Hact.
Qed.

(** The pages of a voter's history cover the voter's votes without overlap:
    the vote at rank [i] (most recent first) is on page [i / limit + 1] at
    offset [i mod limit], and every page after [totalPages] is empty. *)
Theorem votingHistory_pages_cover st u limit :
  1 <= limit ->
  let sorted := sort_desc createdAt (Vote_findByVoter (votes st) (user_id u)) in
  (forall (i : nat) v,
     List.nth_error sorted i = Some v ->
     exists h,
       votingHistory st u (Z.of_nat i / limit + 1) limit = Some h
       /\ List.nth_error (List.map pv_vote (h_votes h))
                         (Z.to_nat (Z.of_nat i mod limit)) = Some v)
  /\ (forall page h,
        votingHistory st u page limit = Some h ->
        h_totalPages h < page -> h_votes h = []).
Proof.
  intros Hl sorted. split.
  - intros i v Hv.
    pose proof (Z.div_mod (Z.of_nat i) limit (ltac:(lia))) as Hdm.
    pose proof (Z.mod_pos_bound (Z.of_nat i) limit (ltac:(lia))) as Hm.
    assert (Hq : 0 <= Z.of_nat i / limit) by (apply Z.div_pos; lia).
    unfold votingHistory.
    assert (((1 <=? Z.of_nat i / limit + 1) && (1 <=? limit))%bool = true) as ->.
    { apply andb_true_intro. split; apply Z.leb_le; lia. }
    eexists. split; [reflexivity|].
    cbn [h_votes]. rewrite map_pv_vote_populate.
    fold sorted. replace (limit * 1) with limit by lia.
    rewrite nth_error_firstn_lt by lia.
    rewrite nth_error_skipn_add.
    replace (Z.to_nat ((Z.of_nat i / limit + 1 - 1) * limit)
             + Z.to_nat (Z.of_nat i mod limit))%nat with i by nia.
    exact Hv.
  - intros page h Hh Hlate. unfold votingHistory in Hh.
    destruct ((1 <=? page) && (1 <=? limit))%bool eqn:E; [|discriminate].
    apply andb_prop in E as [Hp _]. apply Z.leb_le in Hp.
    injection Hh as <-. cbn [h_votes h_totalPages] in *.
    pose proof (ceil_div_spec
                  (Z.of_nat (List.length
                               (Vote_findByVoter (votes st) (user_id u))))
                  limit (ltac:(lia))) as [_ Hc].
    rewrite List.skipn_all2; [now rewrite List.firstn_nil|].
    rewrite sort_desc_length. nia.
Qed.

(** * Further properties of the rate limiter *)

Lemma rateLimitAuth_bounds (m : gmap string Attempt) ip now T :
  (forall k a, m !! k = Some a ->
     0 <= count a <= maxAttempts /\ resetTime a <= T + windowMs) ->
  T <= now ->
  (forall k a, snd (rateLimitAuth m ip now) !! k = Some a ->
     0 <= count a <= maxAttempts /\ resetTime a <= now + windowMs)
  /\ (forall s, fst (rateLimitAuth m ip now) = TooMany s -> 0 <= s <= 900).
Proof.
  intros Hinv HT. unfold rateLimitAuth.
  set (a0 := match m !! ip with Some a => a | None => _ end).
  assert (H0 : 0 <= count a0 <= maxAttempts
               /\ resetTime a0 <= now + windowMs).
  { unfold a0. destruct (m !! ip) as [a|] eqn:E.
    - destruct (Hinv ip a E). split; [assumption | lia].
    - cbn. unfold maxAttempts. lia. }
  set (a1 := if resetTime a0 <? now then _ else a0).
  assert (H1 : 0 <= count a1 <= maxAttempts
               /\ now <= resetTime a1 <= now + windowMs).
  { unfold a1. destruct (resetTime a0 <? now) eqn:E.
    - cbn. unfold maxAttempts, windowMs. lia.
    - apply Z.ltb_ge in E. lia. }
  destruct (maxAttempts <=? count a1) eqn:Hmax; cbn [fst snd].
  - split.
    + intros k a Hk. destruct (decide (ip = k)) as [-> | Hne].
      * rewrite lookup_insert_eq in Hk. injection Hk as <-. lia.
      * rewrite lookup_insert_ne in Hk by exact Hne.
        destruct (Hinv k a Hk). split; [assumption | lia].
    + intros s [= <-]. unfold ceil_seconds.
      assert (Hw : 0 <= resetTime a1 - now <= 900000)
        by (unfold windowMs in H1; lia).
      pose proof (Z.div_mod (- (resetTime a1 - now)) 1000 (ltac:(lia))).
      pose proof (Z.mod_pos_bound (- (resetTime a1 - now)) 1000 (ltac:(lia))).
      lia.
  - apply Z.leb_gt in Hmax. split; [|discriminate].
    intros k a Hk. destruct (decide (ip = k)) as [-> | Hne].
    + rewrite lookup_insert_eq in Hk. injection Hk as <-. cbn. lia.
    + rewrite lookup_insert_ne in Hk by exact Hne.
      destruct (Hinv k a Hk). split; [assumption | lia].
Qed.

(** Under a clock that never goes back, and from a map whose entries hold a
    counter between 0 and 5 and a window that ends at most 15 minutes from
    now, every run keeps the counters between 0 and 5, and every 429 it
    answers carries a [retryAfter] between 0 and 900 seconds. *)
Theorem rateLimit_run_bounds reqs : forall (m : gmap string Attempt) T,
  (forall k a, m !! k = Some a ->
     0 <= count a <= maxAttempts /\ resetTime a <= T + windowMs) ->
  clock_monotone T reqs ->
  Forall (fun d => forall s, d = TooMany s -> 0 <= s <= 900)
         (fst (rateLimit_run m reqs))
  /\ (forall k a, snd (rateLimit_run m reqs) !! k = Some a ->
        0 <= count a <= maxAttempts).
Proof.
  induction reqs as [|[ip now] reqs IH]; intros m T Hinv Hclock.
  - cbn. split; [constructor|]. intros k a Hk. now destruct (Hinv k a Hk).
  - destruct Hclock as [HT Hclock]. cbn [rateLimit_run].
    destruct (rateLimitAuth_bounds m ip now T Hinv HT) as [Hinv' Hs].
    destruct (rateLimitAuth m ip now) as [d m1].
    cbn [fst snd] in Hinv', Hs.
    destruct (IH m1 now Hinv' Hclock) as [HF Hfin].
    destruct (rateLimit_run m1 reqs) as [ds m2]. cbn [fst snd] in *.
    split; [constructor; assumption | exact Hfin].
Qed.

(** What the limiter decides for an address, and the entry it leaves for
    it, depend on the entry of that address alone. *)
Lemma rateLimitAuth_local (m m' : gmap string Attempt) ip now :
  m !! ip = m' !! ip ->
  fst (rateLimitAuth m ip now) = fst (rateLimitAuth m' ip now)
  /\ snd (rateLimitAuth m ip now) !! ip = snd (rateLimitAuth m' ip now) !! ip.
Proof.
  intros H. unfold rateLimitAuth. rewrite H.
  destruct (maxAttempts <=? _); cbn [fst snd];
    now rewrite !lookup_insert_eq.
Qed.

Lemma rateLimit_run_local ip reqs : forall (m m' : gmap string Attempt),
  m !! ip = m' !! ip ->
  decisions_for ip reqs (fst (rateLimit_run m reqs))
  = fst (rateLimit_run m'
           (List.filter (fun q => String.eqb (fst q) ip) reqs)).
Proof.
  induction reqs as [|[ip' now] reqs IH]; intros m m' H; [reflexivity|].
  cbn [rateLimit_run List.filter fst].
  destruct (rateLimitAuth m ip' now) as [d m1] eqn:Hstep.
  destruct (rateLimit_run m1 reqs) as [ds m2] eqn:Hrun.
  cbn [fst decisions_for].
  destruct (String.eqb ip' ip) eqn:E.
  - apply String.eqb_eq in E. subst ip'.
    destruct (rateLimitAuth_local m m' ip now H) as [Hd Hm].
    rewrite Hstep in Hd, Hm. cbn [fst snd] in Hd, Hm.
    cbn [rateLimit_run].
    destruct (rateLimitAuth m' ip now) as [d' m1'] eqn:Hstep'.
    cbn [fst snd] in Hd, Hm. subst d'.
    specialize (IH m1 m1' Hm). rewrite Hrun in IH. cbn [fst] in IH.
    destruct (rateLimit_run m1' _). cbn [fst] in *. now rewrite IH.
  - assert (Hne : ip' <> ip) by (intros ->; now rewrite String.eqb_refl in E).
    pose proof (rateLimitAuth_other m ip ip' now Hne) as Hother.
    rewrite Hstep in Hother. cbn [snd] in Hother.
    specialize (IH m1 m' (eq_trans Hother H)).
    rewrite Hrun in IH. exact IH.
Qed.

(** Addresses do not interfere: what a run decides on the requests of one
    address is what it would decide had no other address sent anything. *)
Theorem rateLimit_addresses_independent (m : gmap string Attempt) ip reqs :
  decisions_for ip reqs (fst (rateLimit_run m reqs))
  = fst (rateLimit_run m (List.filter (fun q => String.eqb (fst q) ip) reqs)).
Proof. now apply rateLimit_run_local. Qed.

Lemma rateLimitAuth_cleaned (m m' : gmap string Attempt) T ip now :
  (forall k, m' !! k = m !! k
             \/ (m' !! k = None /\ exists a, m !! k = Some a /\ resetTime a < T)) ->
  T <= now ->
  fst (rateLimitAuth m' ip now) = fst (rateLimitAuth m ip now)
  /\ (forall k, snd (rateLimitAuth m' ip now) !! k
                = snd (rateLimitAuth m ip now) !! k
                \/ (snd (rateLimitAuth m' ip now) !! k = None
                    /\ exists a, snd (rateLimitAuth m ip now) !! k = Some a
                                 /\ resetTime a < now)).
Proof.
  intros HR HT.
  assert (Hip : fst (rateLimitAuth m' ip now) = fst (rateLimitAuth m ip now)
                /\ snd (rateLimitAuth m' ip now) !! ip
                   = snd (rateLimitAuth m ip now) !! ip).
  { destruct (HR ip) as [Heq | (Hn & a & Ha & Hold)].
    - now apply rateLimitAuth_local.
    - rewrite (rateLimitAuth_opens m' ip now (or_introl Hn)).
      rewrite (rateLimitAuth_opens m ip now)
        by (right; exists a; split; [exact Ha | lia]).
      cbn [fst snd]. now rewrite !lookup_insert_eq. }
  split; [apply Hip|].
  intros k. destruct (decide (k = ip)) as [-> | Hne]; [left; apply Hip|].
  rewrite !rateLimitAuth_other by congruence.
  destruct (HR k) as [Heq | (Hn & a & Ha & Hold)]; [now left|].
  right. split; [exact Hn|]. exists a. split; [exact Ha | lia].
Qed.

Lemma rateLimit_run_cleaned reqs : forall (m m' : gmap string Attempt) T,
  (forall k, m' !! k = m !! k
             \/ (m' !! k = None /\ exists a, m !! k = Some a /\ resetTime a < T)) ->
  clock_monotone T reqs ->
  fst (rateLimit_run m' reqs) = fst (rateLimit_run m reqs).
Proof.
  induction reqs as [|[ip now] reqs IH]; intros m m' T HR Hclock;
    [reflexivity|].
  destruct Hclock as [HT Hclock]. cbn [rateLimit_run].
  destruct (rateLimitAuth_cleaned m m' T ip now HR HT) as [Hd HR'].
  destruct (rateLimitAuth m' ip now) as [d' m1'].
  destruct (rateLimitAuth m ip now) as [d m1].
  cbn [fst snd] in Hd, HR'. subst d'.
  specialize (IH m1 m1' now HR' Hclock).
  destruct (rateLimit_run m1' reqs), (rateLimit_run m1 reqs).
  cbn [fst] in *. now rewrite IH.
Qed.

(** The periodic clean-up cannot be observed: whatever requests follow it,
    under a clock that does not go back, the limiter decides each of them as
    it would have without the clean-up. *)
Theorem cleanup_attempts_unobservable (m : gmap string Attempt) now reqs :
  clock_monotone now reqs ->
  fst (rateLimit_run (cleanup_attempts m now) reqs)
  = fst (rateLimit_run m reqs).
Proof.
  intros Hclock. apply (rateLimit_run_cleaned reqs m _ now); [|exact Hclock].
  intros k. unfold cleanup_attempts.
  destruct (m !! k) as [a|] eqn:Hm.
  - destruct (decide (resetTime a < now)) as [Hold | Hlive].
    + right. split; [|now exists a].
      apply map_lookup_filter_None. right. intros a' Ha'.
      rewrite Hm in Ha'. injection Ha' as <-. cbn [snd]. tauto.
    + left. apply map_lookup_filter_Some. split; [exact Hm | exact Hlive].
  - left. apply map_lookup_filter_None. now left.
Qed.

(** * The authentication middleware *)

Lemma User_findById_id us id d :
  User_findById us id = Some d -> ud_id d = id.
Proof.
  unfold User_findById. intros H.
  apply List.find_some in H as [_ H]. now apply N.eqb_eq.
Qed.

Lemma User_setLastLogin_found us d now :
  User_findById us (ud_id d) = Some d ->
  User_findById (User_setLastLogin us (ud_id d) now) (ud_id d)
  = Some (mkUserDoc (ud_id d) (ud_username d) (ud_role d) (ud_isActive d)
                    (Some now) (ud_stats d)).
Proof.
  unfold User_findById. induction us as [|x us IH]; simpl; [discriminate|].
  destruct (N.eqb (ud_id x) (ud_id d)) eqn:E; simpl.
  - intros [= ->]. now rewrite N.eqb_refl.
  - rewrite E. exact IH.
Qed.

Lemma User_setLastLogin_other us id id' now :
  id' <> id ->
  User_findById (User_setLastLogin us id now) id' = User_findById us id'.
Proof.
  intros Hne. unfold User_findById.
  induction us as [|x us IH]; simpl; [reflexivity|].
  destruct (N.eqb (ud_id x) id) eqn:E; simpl.
  - apply N.eqb_eq in E.
    destruct (N.eqb (ud_id x) id') eqn:E'; [|reflexivity].
    apply N.eqb_eq in E'. congruence.
  - destruct (N.eqb (ud_id x) id'); [reflexivity | exact IH].
Qed.

Lemma User_setLastLogin_rest us id now :
  List.map (fun x => (ud_id x, ud_username x, ud_role x, ud_isActive x,
                      ud_stats x))
           (User_setLastLogin us id now)
  = List.map (fun x => (ud_id x, ud_username x, ud_role x, ud_isActive x,
                        ud_stats x)) us.
Proof.
  induction us as [|x us IH]; simpl; [reflexivity|].
  destruct (N.eqb (ud_id x) id); simpl; [reflexivity | now rewrite IH].
Qed.

Lemma auth_pass_inv jwt_verify us h now d :
  fst (auth jwt_verify us h now) = Authenticated d ->
  exists token uid iat,
    extract_token h = Some token
    /\ nonempty token = true
    /\ jwt_verify token = JwtDecoded (Some uid) iat
    /\ User_findById us uid = Some d
    /\ ud_isActive d = true
    /\ now - iat * 1000 <= maxAge.
Proof.
  unfold auth.
  destruct (extract_token h) as [token|]; [|discriminate].
  destruct (nonempty token) eqn:Hne; cbn [negb]; [|discriminate].
  destruct (jwt_verify token) as [[uid|] iat| | |] eqn:Hv; try discriminate.
  destruct (User_findById us uid) as [user|] eqn:Hu; [|discriminate].
  destruct (ud_isActive user) eqn:Ha; cbn [negb]; [|discriminate].
  destruct (maxAge <? now - iat * 1000) eqn:Hage; [discriminate|].
  cbn [fst]. intros [= <-]. apply Z.ltb_ge in Hage.
  exists token, uid, iat. repeat split; assumption.
Qed.

(** [auth] lets a request through exactly when it carries a non-empty token
    that verifies to a user id under which an active user is stored, issued
    no more than seven days ago; [req.user] is then that stored user. *)
Theorem auth_passes_iff jwt_verify us h now d :
  fst (auth jwt_verify us h now) = Authenticated d
  <-> exists token uid iat,
        extract_token h = Some token
        /\ nonempty token = true
        /\ jwt_verify token = JwtDecoded (Some uid) iat
        /\ User_findById us uid = Some d
        /\ ud_isActive d = true
        /\ now - iat * 1000 <= maxAge.
Proof.
  split; [apply auth_pass_inv|].
  intros (token & uid & iat & Ht & Hne & Hv & Hu & Ha & Hage).
  unfold auth. rewrite Ht, Hne, Hv, Hu, Ha. cbn [negb].
  apply Z.ltb_ge in Hage. now rewrite Hage.
Qed.

(** [auth] writes nothing when it refuses.  When it lets a request through,
    the only field of the Users collection it may change is [lastLogin] of
    the authenticated user, and afterwards that user's stored [lastLogin]
    is no more than five minutes old. *)
Theorem auth_store_effect jwt_verify us h now :
  let r := auth jwt_verify us h now in
  (forall c, fst r = Rejected c -> snd r = us)
  /\ (forall d, fst r = Authenticated d ->
        List.map (fun x => (ud_id x, ud_username x, ud_role x, ud_isActive x,
                            ud_stats x)) (snd r)
        = List.map (fun x => (ud_id x, ud_username x, ud_role x,
                              ud_isActive x, ud_stats x)) us
        /\ (forall id, id <> ud_id d ->
              User_findById (snd r) id = User_findById us id)
        /\ exists d' t,
             User_findById (snd r) (ud_id d) = Some d'
             /\ ud_lastLogin d' = Some t
             /\ now - t <= lastLoginThreshold).
Proof.
  cbv zeta. unfold auth.
  destruct (extract_token h) as [token|]; [|split; [reflexivity | discriminate]].
  destruct (nonempty token); cbn [negb];
    [|split; [reflexivity | discriminate]].
  destruct (jwt_verify token) as [[uid|] iat| | |];
    try (split; [reflexivity | discriminate]).
  destruct (User_findById us uid) as [user|] eqn:Hu;
    [|split; [reflexivity | discriminate]].
  destruct (ud_isActive user); cbn [negb];
    [|split; [reflexivity | discriminate]].
  destruct (maxAge <? now - iat * 1000);
    [split; [reflexivity | discriminate]|].
  cbn [fst snd]. split; [discriminate|]. intros d [= <-].
  pose proof (User_findById_id _ _ _ Hu) as Hid. rewrite <- Hid in Hu.
  unfold lastLogin_stale.
  destruct (ud_lastLogin user) as [t|] eqn:Hll.
  - destruct (lastLoginThreshold <? now - t) eqn:Hst.
    + split; [apply User_setLastLogin_rest|]. split.
      { intros id Hne. now apply User_setLastLogin_other. }
      eexists. exists now. split; [now apply User_setLastLogin_found|].
      split; [reflexivity|]. unfold lastLoginThreshold. lia.
    + apply Z.ltb_ge in Hst. split; [reflexivity|].
      split; [reflexivity|]. exists user, t. now repeat split.
  - split; [apply User_setLastLogin_rest|]. split.
    { intros id Hne. now apply User_setLastLogin_other. }
    eexists. exists now. split; [now apply User_setLastLogin_found|].
    split; [reflexivity|]. unfold lastLoginThreshold. lia.
Qed.

(** [adminAuth] lets through exactly the requests [auth] lets through for a
    user whose role is admin; it answers what [auth] answers when [auth]
    refuses, and 403 [ADMIN_REQUIRED] for any other authenticated user; and
    it leaves the Users collection as [auth] does, so that a refused
    non-admin has had [lastLogin] refreshed all the same. *)
Theorem adminAuth_spec jwt_verify us h now :
  snd (adminAuth jwt_verify us h now) = snd (auth jwt_verify us h now)
  /\ (forall d,
        fst (adminAuth jwt_verify us h now) = Authenticated d
        <-> fst (auth jwt_verify us h now) = Authenticated d
            /\ ud_role d = admin_role)
  /\ (forall d,
        fst (auth jwt_verify us h now) = Authenticated d ->
        ud_role d = voter_role ->
        fst (adminAuth jwt_verify us h now) = Rejected ADMIN_REQUIRED
        /\ auth_status ADMIN_REQUIRED = 403)
  /\ (forall c,
        fst (auth jwt_verify us h now) = Rejected c ->
        fst (adminAuth jwt_verify us h now) = Rejected c).
Proof.
  unfold adminAuth.
  destruct (auth jwt_verify us h now) as [[user | c] us']; cbn [fst snd].
  - destruct (ud_role user) eqn:Hr; cbn [fst snd].
    + split; [reflexivity|]. split.
      { intros d. split; [discriminate|]. intros [[= <-] H]. congruence. }
      split; [|discriminate]. intros d [= <-] _. now split.
    + split; [reflexivity|]. split.
      { intros d. split; [intros [= <-]; now split | now intros [H _]]. }
      split; [|discriminate]. intros d [= <-] H. congruence.
  - split; [reflexivity|]. split.
    { intros d. split; [discriminate | now intros [H _]]. }
    split; [discriminate | trivial].
Qed.

(** [optionalAuth] recognises every request [auth] lets through, with the
    same user; it sets [req.user] exactly when the token verifies to the id
    of a stored active user, with no regard to the age of the token. *)
Theorem optionalAuth_spec jwt_verify us h d :
  (forall now, fst (auth jwt_verify us h now) = Authenticated d ->
               optionalAuth jwt_verify us h = Some d)
  /\ (optionalAuth jwt_verify us h = Some d
      <-> exists token uid iat,
            extract_token h = Some token
            /\ nonempty token = true
            /\ jwt_verify token = JwtDecoded (Some uid) iat
            /\ User_findById us uid = Some d
            /\ ud_isActive d = true).
Proof.
  assert (Hiff : optionalAuth jwt_verify us h = Some d
                 <-> exists token uid iat,
                       extract_token h = Some token
                       /\ nonempty token = true
                       /\ jwt_verify token = JwtDecoded (Some uid) iat
                       /\ User_findById us uid = Some d
                       /\ ud_isActive d = true).
  { unfold optionalAuth. split.
    - destruct (extract_token h) as [token|]; [|discriminate].
      destruct (nonempty token) eqn:Hne; cbn [negb]; [|discriminate].
      destruct (jwt_verify token) as [[uid|] iat| | |] eqn:Hv;
        try discriminate.
      destruct (User_findById us uid) as [user|] eqn:Hu; [|discriminate].
      destruct (ud_isActive user) eqn:Ha; [|discriminate].
      intros [= <-]. exists token, uid, iat. repeat split; assumption.
    - intros (token & uid & iat & -> & -> & -> & -> & ->). reflexivity. }
  split; [|exact Hiff].
  intros now Hauth. apply Hiff.
  apply auth_pass_inv in Hauth
    as (token & uid & iat & H1 & H2 & H3 & H4 & H5 & _).
  exists token, uid, iat. repeat split; assumption.
Qed.

(** Where the token is taken from: a non-empty token after [Bearer ] in the
    [Authorization] header wins over the other two places; an
    [Authorization] header that is absent, empty, or [Bearer ] with nothing
    after it gives way to [x-auth-token], and that one, when absent or
    empty, to the cookie. *)
Theorem extract_token_precedence t x c :
  (nonempty t = true ->
   extract_token (mkAuthHeaders (Some ("Bearer " ++ t)%string) x c) = Some t)
  /\ extract_token (mkAuthHeaders (Some "Bearer "%string) x c) = js_or x c
  /\ extract_token (mkAuthHeaders (Some ""%string) x c) = js_or x c
  /\ extract_token (mkAuthHeaders None x c) = js_or x c
  /\ (truthy x = true -> js_or x c = x)
  /\ (truthy x = false -> js_or x c = c).
Proof.
  unfold extract_token, js_or.
  cbn [h_authorization h_x_auth_token h_cookie_token option_map].
  split.
  { intros Ht.
    assert (remove_first "Bearer " ("Bearer " ++ t) = t) as ->
      by (simpl; destruct t; reflexivity).
    cbn [truthy]. rewrite Ht. cbn [truthy]. now rewrite Ht. }
  repeat split; try reflexivity.
  - now intros ->.
  - now intros ->.
Qed.

(** A user document carries no [permissions]: for the users [auth] hands
    over, [requirePermission] decides as [requireRole(['admin'])] does,
    whatever the permission asked for. *)
Theorem requirePermission_is_admin_check permission u :
  requirePermission permission u None = requireRole ["admin"%string] u.
Proof. destruct u as [d|]; [|reflexivity]. now destruct d as [? ? []]. Qed.


(** Through [PUT /api/votes/:id/invalidate] the ledger store changes only at
    the request of a stored, active user whose role is admin. *)
Theorem put_invalidate_admin_only jwt_verify us st h id now :
  snd (put_invalidate jwt_verify us st h id now) <> st ->
  exists d,
    fst (auth jwt_verify us h now) = Authenticated d
    /\ ud_role d = admin_role
    /\ ud_isActive d = true.
Proof.
  unfold put_invalidate.
  destruct (auth jwt_verify us h now) as [[user | c] us'] eqn:Hauth;
    cbn [snd]; [|congruence].
  intros Hch. exists user. split; [reflexivity|].
  assert (Hpass : fst (auth jwt_verify us h now) = Authenticated user)
    by now rewrite Hauth.
  apply auth_pass_inv in Hpass as (_ & _ & _ & _ & _ & _ & _ & Ha & _).
  split; [|exact Ha].
  destruct (ud_role user) eqn:Hr; [|reflexivity].
  exfalso. apply Hch. unfold invalidateVote.
  cbn [as_req_user role]. now rewrite Hr.
Qed.

(** * Model methods *)

(** [canVoteForPosition] agrees with the duplicate check of the submit
    handler: for a request that is acceptable otherwise, the user can vote
    for the position exactly when the handler inserts the Vote, and cannot
    exactly when the handler answers 400 "already voted". *)
Theorem canVoteForPosition_agrees st d r :
  user_id (req_user r) = ud_id d ->
  castable st r = true ->
  (canVoteForPosition (votes st) d (req_position r) = true
   <-> votes (db_after (castVote st r)) = votes st ++ [new_Vote st r])
  /\ (canVoteForPosition (votes st) d (req_position r) = false
      <-> response (castVote st r) = DuplicateVote).
Proof.
  intros Hu Hc. unfold canVoteForPosition. rewrite <- Hu.
  destruct (Vote_findOne (votes st) (user_id (req_user r)) (req_position r))
    as [w|] eqn:Hone.
  - rewrite (castVote_duplicate st r w Hc Hone). cbn [reply response db_after].
    split; split; auto; try discriminate.
    intros H. apply (f_equal (@List.length _)) in H.
    rewrite List.length_app in H. cbn [List.length] in H. lia.
  - rewrite (castVote_recorded st r Hc Hone).
    cbn [response db_after db_recorded votes].
    split; split; auto; discriminate.
Qed.

Lemma nodup_fixed (l : list string) :
  List.NoDup l -> List.nodup string_dec l = l.
Proof.
  induction 1 as [|x l Hx Hnd IH]; simpl; [reflexivity|].
  destruct (List.in_dec string_dec x l); [contradiction | now rewrite IH].
Qed.

Lemma positions_of_voter_nodup vs who :
  List.NoDup (List.map index_key vs) ->
  List.NoDup
    (List.map position (List.filter (fun v => N.eqb (voter v) who) vs)).
Proof.
  induction vs as [|d vs IH]; simpl; intros Hnd; [constructor|].
  inversion Hnd as [|k ks Hnin Hnd']; subst.
  destruct (N.eqb (voter d) who) eqn:E; [|now apply IH].
  simpl. constructor; [|now apply IH].
  intros Hin. apply Hnin.
  apply in_map_iff in Hin as (w & Hp & Hw).
  apply List.filter_In in Hw as [Hw Hv].
  apply N.eqb_eq in E. apply N.eqb_eq in Hv.
  apply in_map_iff. exists w. split; [|exact Hw].
  unfold index_key. congruence.
Qed.

Lemma fold_left_max_spec l : forall x,
  (x <= List.fold_left Z.max l x)
  /\ (forall y, In y l -> y <= List.fold_left Z.max l x)
  /\ (List.fold_left Z.max l x = x \/ In (List.fold_left Z.max l x) l).
Proof.
  induction l as [|a l IH]; intros x; simpl.
  - split; [lia|]. split; [intros y []|now left].
  - destruct (IH (Z.max x a)) as (H1 & H2 & H3).
    split; [lia|]. split.
    + intros y [<- | Hy]; [lia | now apply H2].
    + destruct H3 as [H3 | H3]; [|now right; right].
      destruct (Z.max_spec x a) as [[_ Hm] | [_ Hm]];
        [right; left | left]; rewrite H3; congruence.
Qed.

(** [updateStats] of a user who has voted: [totalVotes] is the number of the
    user's votes, which is also [total] of the user's voting history;
    thanks to the unique index [positionsVoted] is the same number; and
    [lastVoteDate] is the time of the user's latest vote.  The rest of the
    document is not touched. *)
Theorem User_updateStats_spec st d v0 :
  List.NoDup (List.map index_key (votes st)) ->
  In v0 (votes st) ->
  voter v0 = ud_id d ->
  let d' := User_updateStats (votes st) d in
  let mine := Vote_findByVoter (votes st) (ud_id d) in
  us_totalVotes (ud_stats d') = Z.of_nat (List.length mine)
  /\ us_positionsVoted (ud_stats d') = us_totalVotes (ud_stats d')
  /\ (forall h page limit,
        votingHistory st (as_req_user d) page limit = Some h ->
        h_total h = us_totalVotes (ud_stats d'))
  /\ (exists t,
        us_lastVoteDate (ud_stats d') = Some t
        /\ (forall v, In v mine -> createdAt v <= t)
        /\ exists v, In v mine /\ createdAt v = t)
  /\ (ud_id d', ud_username d', ud_role d', ud_isActive d', ud_lastLogin d')
     = (ud_id d, ud_username d, ud_role d, ud_isActive d, ud_lastLogin d).
Proof.
  intros Hnd Hin Hv d' mine. unfold d', User_updateStats.
  fold (Vote_findByVoter (votes st) (ud_id d)). fold mine.
  assert (Hmine : In v0 mine).
  { unfold mine, Vote_findByVoter. apply List.filter_In.
    split; [exact Hin | now apply N.eqb_eq]. }
  pose proof (positions_of_voter_nodup (votes st) (ud_id d) Hnd) as Hpos.
  fold (Vote_findByVoter (votes st) (ud_id d)) in Hpos. fold mine in Hpos.
  destruct mine as [|m0 rest] eqn:Em; [destruct Hmine|].
  cbn [ud_stats us_totalVotes us_positionsVoted us_lastVoteDate ud_id
       ud_username ud_role ud_isActive ud_lastLogin].
  split; [reflexivity|]. split.
  { now rewrite (nodup_fixed _ Hpos), List.length_map. }
  split.
  { intros h page limit Hh. unfold votingHistory in Hh.
    destruct ((1 <=? page) && (1 <=? limit))%bool; [|discriminate].
    injection Hh as <-. cbn [h_total as_req_user user_id].
    fold mine. now rewrite Em. }
  split; [|reflexivity].
  cbn [List.map Zmax_list].
  destruct (fold_left_max_spec (List.map createdAt rest) (createdAt m0))
    as (H1 & H2 & H3).
  eexists. split; [reflexivity|]. split.
  - intros v [<- | Hr]; [exact H1|].
    apply H2. now apply List.in_map.
  - destruct H3 as [H3 | H3].
    + exists m0. split; [now left | now rewrite H3].
    + apply in_map_iff in H3 as (v & Hc & Hr).
      exists v. split; [now right | exact Hc].
Qed.

(** The two counter methods of the Candidate model never change the
    stored collection.  [incrementVoteCount] always throws: it modifies the
    counter, so the pre-save hook runs [updateStats], whose own save is
    refused.  [decrementVoteCount] throws for the same reason unless the
    counter and the two vote statistics are all 0, and then it has nothing
    to write. *)
Theorem counter_methods_never_write cs c now :
  incrementVoteCount cs c now = None
  /\ (decrementVoteCount cs c = None
      <-> voteCount c <> 0 \/ totalVotes (stats c) <> 0
          \/ recentVotes (stats c) <> 0)
  /\ (forall cs',
        Candidate_findById cs (cand_id c) = Some c ->
        decrementVoteCount cs c = Some cs' -> cs' = cs).
Proof.
  split.
  { unfold incrementVoteCount, Candidate_save, Candidate_pre_save,
      Candidate_isModified. cbn [voteCount stats].
    assert ((voteCount c =? voteCount c + 1) = false) as ->
      by (apply Z.eqb_neq; lia).
    reflexivity. }
  unfold decrementVoteCount, Candidate_save, Candidate_pre_save,
    Candidate_isModified, stats_eqb.
  cbn [voteCount stats totalVotes recentVotes votePercentage positionRank
       lastVoteDate].
  assert (Qeq_bool (votePercentage (stats c)) (votePercentage (stats c)) = true)
    as -> by (apply Qeq_bool_iff; reflexivity).
  rewrite Z.eqb_refl.
  assert (match lastVoteDate (stats c) with
          | Some a => match lastVoteDate (stats c) with
                      | Some b => a =? b
                      | None => false
                      end
          | None => match lastVoteDate (stats c) with
                    | Some _ => false
                    | None => true
                    end
          end = true) as ->
    by (destruct (lastVoteDate (stats c)); [apply Z.eqb_refl | reflexivity]).
  rewrite !andb_true_r.
  destruct (Z.eqb_spec (voteCount c) (Z.max 0 (voteCount c - 1))) as [E1|E1];
    destruct (Z.eqb_spec (totalVotes (stats c))
                         (Z.max 0 (totalVotes (stats c) - 1))) as [E2|E2];
    destruct (Z.eqb_spec (recentVotes (stats c))
                         (Z.max 0 (recentVotes (stats c) - 1))) as [E3|E3];
    cbn [andb negb];
    (split; [split; [intros H; try discriminate H; lia
                    | intros H; try reflexivity; exfalso; lia]|]);
    try (intros cs' _ H; discriminate H).
  intros cs' Hc [= <-].
  assert (Hsame : mkCandidate (cand_id c) (name c) (party c) (description c)
                    (image c) (cand_position c) (isActive c)
                    (Z.max 0 (voteCount c - 1))
                    (mkStats (Z.max 0 (totalVotes (stats c) - 1))
                             (Z.max 0 (recentVotes (stats c) - 1))
                             (votePercentage (stats c))
                             (positionRank (stats c))
                             (lastVoteDate (stats c))) = c).
  { rewrite <- E1, <- E2, <- E3. destruct c as [? ? ? ? ? ? ? ? []].
    reflexivity. }
  rewrite Hsame. now apply Candidate_update_found.
Qed.

(** * Candidate routes *)

Lemma Candidate_delete_other cs id cid :
  cid <> id ->
  Candidate_findById (Candidate_delete cs id) cid = Candidate_findById cs cid.
Proof.
  intros Hne. unfold Candidate_findById.
  induction cs as [|d cs IH]; simpl; [reflexivity|].
  destruct (N.eqb (cand_id d) id) eqn:E; simpl.
  - apply N.eqb_eq in E.
    destruct (N.eqb (cand_id d) cid) eqn:E'; [|reflexivity].
    apply N.eqb_eq in E'. congruence.
  - destruct (N.eqb (cand_id d) cid); [reflexivity | exact IH].
Qed.

Lemma Candidate_delete_gone cs id :
  List.NoDup (List.map cand_id cs) ->
  Candidate_findById (Candidate_delete cs id) id = None.
Proof.
  unfold Candidate_findById.
  induction cs as [|d cs IH]; simpl; intros Hnd; [reflexivity|].
  inversion Hnd as [|k ks Hnin Hnd']; subst.
  destruct (N.eqb (cand_id d) id) eqn:E; simpl.
  - apply N.eqb_eq in E. subst id.
    destruct (List.find _ cs) as [c|] eqn:Hf; [|reflexivity].
    apply List.find_some in Hf as [Hin Hc]. apply N.eqb_eq in Hc.
    exfalso. apply Hnin. rewrite <- Hc. now apply List.in_map.
  - rewrite E. now apply IH.
Qed.

(** Deleting a candidate removes that one document and nothing else: the
    votes that reference it stay in the Vote collection.  From then on no
    vote can be submitted for it (404), and its votes can still be
    invalidated, which then moves no counter at all. *)
Theorem deleteCandidate_leaves_votes st id c :
  List.NoDup (List.map cand_id (candidates st)) ->
  Candidate_findById (candidates st) id = Some c ->
  let st' := snd (deleteCandidate st id) in
  fst (deleteCandidate st id) = CandidateDeleted
  /\ votes st' = votes st
  /\ Candidate_findById (candidates st') id = None
  /\ (forall cid, cid <> id ->
        Candidate_findById (candidates st') cid
        = Candidate_findById (candidates st) cid)
  /\ (forall r, req_candidateId r = id -> nonempty (req_position r) = true ->
        castVote st' r = reply CandidateNotFound st')
  /\ (forall u vid v,
        role u = admin_role ->
        Vote_findById (votes st) vid = Some v -> candidate v = id ->
        response (invalidateVote st' u vid) = VoteInvalidated
        /\ candidates (db_after (invalidateVote st' u vid)) = candidates st').
Proof.
  intros Hnd Hc. cbv zeta. unfold deleteCandidate. rewrite Hc.
  cbn [fst snd votes candidates].
  pose proof (Candidate_delete_gone (candidates st) id Hnd) as Hgone.
  split; [reflexivity|]. split; [reflexivity|]. split; [exact Hgone|].
  split; [intros cid Hne; now apply Candidate_delete_other|]. split.
  - intros r Hr Hp. unfold castVote. cbn [candidates].
    now rewrite Hp, Hr, Hgone.
  - intros u vid v Hu Hv Hcv. unfold invalidateVote.
    cbn [votes candidates]. rewrite Hu, Hv.
    cbn [set_isValid candidate]. rewrite Hcv, Hgone. now split.
Qed.

Lemma Zsum_cons x l : Zsum (x :: l) = x + Zsum l.
Proof. reflexivity. Qed.

Lemma sorted_firstn_skipn {A : Type} (key : A -> Z) n : forall l x y,
  StronglySorted (fun a b => key b <= key a) l ->
  In x (List.firstn n l) -> In y (List.skipn n l) -> key y <= key x.
Proof.
  induction n as [|n IH]; intros l x y Hs Hx Hy; [destruct Hx|].
  destruct l as [|a l]; [destruct Hx|].
  inversion Hs as [|? ? Hs' Hall]; subst. simpl in Hx, Hy.
  destruct Hx as [-> | Hx]; [|now apply (IH l)].
  apply (proj1 (List.Forall_forall _ _) Hall). now apply (skipn_In n).
Qed.

(** [topCandidates] of the candidate overview: at most five lines, all of
    active candidates, highest counter first, and no active candidate left
    out has a higher counter than one that is listed. *)
Theorem candidateOverview_top st :
  let o := candidateOverview st in
  let line := fun c => mkTopCandidate (cand_id c) (name c) (voteCount c)
                                      (cand_position c) in
  (List.length (co_topCandidates o) <= 5)%nat
  /\ Z.of_nat (List.length (co_topCandidates o))
     = Z.min 5 (co_totalCandidates o)
  /\ StronglySorted (fun a b => top_voteCount b <= top_voteCount a)
                    (co_topCandidates o)
  /\ (forall t, In t (co_topCandidates o) ->
        exists c, In c (candidates st) /\ isActive c = true /\ t = line c)
  /\ (forall c, In c (candidates st) -> isActive c = true ->
        In (line c) (co_topCandidates o)
        \/ forall t, In t (co_topCandidates o) ->
                     voteCount c <= top_voteCount t).
Proof.
  cbv zeta. unfold candidateOverview.
  cbn [co_topCandidates co_totalCandidates].
  set (act := List.filter isActive (candidates st)).
  set (sorted := sort_desc voteCount act).
  pose proof (sort_desc_sorted voteCount act) as Hs. fold sorted in Hs.
  pose proof (sort_desc_perm voteCount act) as Hp. fold sorted in Hp.
  split; [rewrite List.length_map; apply List.firstn_le_length|]. split.
  { rewrite List.length_map, List.length_firstn.
    unfold sorted. rewrite sort_desc_length. lia. }
  split.
  { pose proof (StronglySorted_firstn voteCount 5 sorted Hs) as H5.
    induction H5 as [|c cs Hc IH Hall]; simpl; constructor; [exact IH|].
    apply List.Forall_forall. intros t Ht.
    apply in_map_iff in Ht as (d & <- & Hd).
    exact (proj1 (List.Forall_forall _ _) Hall d Hd). }
  split.
  { intros t Ht. apply in_map_iff in Ht as (c & <- & Hc).
    apply firstn_In in Hc. apply (Permutation_in _ Hp) in Hc.
    unfold act in Hc. apply List.filter_In in Hc as [Hin Ha].
    exists c. now repeat split. }
  intros c Hin Ha.
  assert (Hc : In c sorted).
  { apply (Permutation_in _ (Permutation_sym Hp)).
    unfold act. apply List.filter_In. now split. }
  rewrite <- (List.firstn_skipn 5 sorted) in Hc.
  apply List.in_app_or in Hc as [Hc | Hc].
  - left. apply in_map_iff. exists c. now split.
  - right. intros t Ht. apply in_map_iff in Ht as (d & <- & Hd).
    cbn [top_voteCount].
    exact (sorted_firstn_skipn voteCount 5 sorted d c Hs Hd Hc).
Qed.

(** * Vote statistics for admins *)

Lemma group_bump_lookup k acc k' :
  group_lookup (group_bump k acc) k'
  = group_lookup acc k' + (if String.eqb k k' then 1 else 0).
Proof.
  unfold group_lookup.
  induction acc as [|[k0 n] acc IH]; cbn [group_bump List.find fst snd].
  - destruct (String.eqb k k'); reflexivity.
  - destruct (String.eqb k0 k) eqn:E; cbn [List.find fst snd].
    + apply String.eqb_eq in E. subst k0.
      destruct (String.eqb k k'); cbn [snd]; lia.
    + destruct (String.eqb k0 k') eqn:E'; [|exact IH].
      apply String.eqb_eq in E'. subst k'.
      rewrite String.eqb_sym, E. cbn [snd]. lia.
Qed.

Lemma group_bump_keys k acc k' :
  In k' (List.map fst (group_bump k acc))
  <-> k' = k \/ In k' (List.map fst acc).
Proof.
  induction acc as [|[k0 n] acc IH]; cbn [group_bump List.map fst].
  - simpl. intuition.
  - destruct (String.eqb k0 k) eqn:E; cbn [List.map fst In].
    + apply String.eqb_eq in E. subst k0. intuition.
    + rewrite IH. intuition.
Qed.

Lemma group_bump_inv k acc :
  List.NoDup (List.map fst acc) -> Forall (fun g => 1 <= snd g) acc ->
  List.NoDup (List.map fst (group_bump k acc))
  /\ Forall (fun g => 1 <= snd g) (group_bump k acc)
  /\ Zsum (List.map snd (group_bump k acc)) = Zsum (List.map snd acc) + 1.
Proof.
  induction acc as [|[k0 n] acc IH]; intros Hnd HF;
    cbn [group_bump List.map fst snd].
  - split; [repeat constructor; simpl; tauto|].
    split; [repeat constructor; simpl; lia | reflexivity].
  - inversion Hnd as [|? ? Hnin Hnd']; subst.
    inversion HF as [|? ? Hn HF']; subst. cbn [snd] in Hn.
    destruct (String.eqb k0 k) eqn:E; cbn [List.map fst snd].
    + split; [exact Hnd|]. split; [constructor; [cbn; lia | exact HF']|].
      rewrite !Zsum_cons. lia.
    + destruct (IH Hnd' HF') as (I1 & I2 & I3).
      split.
      { constructor; [|exact I1]. rewrite group_bump_keys.
        intros [-> | Hin]; [now rewrite String.eqb_refl in E | contradiction]. }
      split; [constructor; assumption|].
      rewrite !Zsum_cons. lia.
Qed.

Lemma group_count_from keys : forall acc,
  List.NoDup (List.map fst acc) -> Forall (fun g => 1 <= snd g) acc ->
  let res := List.fold_left (fun acc k => group_bump k acc) keys acc in
  List.NoDup (List.map fst res)
  /\ Forall (fun g => 1 <= snd g) res
  /\ Zsum (List.map snd res)
     = Zsum (List.map snd acc) + Z.of_nat (List.length keys)
  /\ forall k',
       group_lookup res k'
       = group_lookup acc k'
         + Z.of_nat (List.length
                       (List.filter (fun k => String.eqb k k') keys)).
Proof.
  induction keys as [|k keys IH]; intros acc Hnd HF; cbn [List.fold_left].
  - cbn. repeat split; try assumption; try lia; intros k'; lia.
  - destruct (group_bump_inv k acc Hnd HF) as (B1 & B2 & B3).
    destruct (IH (group_bump k acc) B1 B2) as (I1 & I2 & I3 & I4).
    cbv zeta in *. split; [exact I1|]. split; [exact I2|]. split.
    + rewrite I3, B3. cbn [List.length]. lia.
    + intros k'. rewrite I4, group_bump_lookup. cbn [List.filter].
      destruct (String.eqb k k'); cbn [List.length]; lia.
Qed.

Lemma group_lookup_In l k n :
  List.NoDup (List.map fst l) -> In (k, n) l -> group_lookup l k = n.
Proof.
  unfold group_lookup.
  induction l as [|[k0 n0] l IH]; intros Hnd Hin; [destruct Hin|].
  inversion Hnd as [|? ? Hnin Hnd']; subst. cbn [List.find fst].
  destruct (String.eqb k0 k) eqn:E.
  - apply String.eqb_eq in E. subst k0.
    destruct Hin as [[= ->] | Hin]; [reflexivity|].
    exfalso. apply Hnin. apply in_map_iff. now exists (k, n).
  - destruct Hin as [[= -> _] | Hin];
      [now rewrite String.eqb_refl in E | now apply IH].
Qed.

Lemma group_lookup_absent l k :
  ~ In k (List.map fst l) -> group_lookup l k = 0.
Proof.
  unfold group_lookup. intros Hn.
  destruct (List.find _ l) as [[k0 n]|] eqn:E; [|reflexivity].
  apply List.find_some in E as [Hin Hk]. cbn [fst] in Hk.
  apply String.eqb_eq in Hk. subst k0.
  exfalso. apply Hn. apply in_map_iff. now exists (k, n).
Qed.

Lemma group_lookup_perm l l' k :
  List.NoDup (List.map fst l) -> Permutation l l' ->
  group_lookup l' k = group_lookup l k.
Proof.
  intros Hnd Hp.
  assert (Hnd' : List.NoDup (List.map fst l'))
    by exact (Permutation_NoDup (Permutation_map fst Hp) Hnd).
  destruct (List.in_dec string_dec k (List.map fst l)) as [Hin | Hnin].
  - apply in_map_iff in Hin as ([k0 n] & Hk & Hin). cbn [fst] in Hk. subst k0.
    rewrite (group_lookup_In l k n Hnd Hin).
    apply group_lookup_In; [exact Hnd'|]. exact (Permutation_in _ Hp Hin).
  - rewrite (group_lookup_absent l k Hnin).
    apply group_lookup_absent. intros Hin. apply Hnin.
    exact (Permutation_in _ (Permutation_sym (Permutation_map fst Hp)) Hin).
Qed.

Lemma Zsum_perm l l' : Permutation l l' -> Zsum l = Zsum l'.
Proof.
  induction 1 as [|x l l' _ IH|x y l|l l' l'' _ IH1 _ IH2];
    rewrite ?Zsum_cons; try lia; reflexivity.
Qed.

Lemma insert_by_key_perm x l : Permutation (insert_by_key x l) (x :: l).
Proof.
  induction l as [|y l IH]; simpl; [reflexivity|].
  destruct (String.leb (fst x) (fst y)); [reflexivity|].
  rewrite IH. apply perm_swap.
Qed.

Lemma sort_by_key_perm l : Permutation (sort_by_key l) l.
Proof.
  induction l as [|x l IH]; simpl; [reflexivity|].
  rewrite insert_by_key_perm. now constructor.
Qed.

Lemma filter_split_length {A : Type} (f : A -> bool) l :
  (List.length (List.filter f l)
   + List.length (List.filter (fun x => negb (f x)) l))%nat
  = List.length l.
Proof.
  induction l as [|x l IH]; simpl; [reflexivity|].
  destruct (f x); simpl; lia.
Qed.

(** The admin statistics add up.  Every vote in the range is counted once as
    valid or invalid, once under its position and once under its day: the
    valid and invalid counts, the counts by position and the counts by day
    each sum to [totalVotes]; each position and each day has one line, with
    the number of votes in the range that fall under it; lines by position
    come highest count first; and without a range every stored vote is
    counted. *)
Theorem adminStats_adds_up dateToString st u range :
  role u = admin_role ->
  let sel := List.filter (in_range range) (votes st) in
  exists total valid invalid byPosition daily,
    adminStats dateToString st u range
    = StatsReport total valid invalid byPosition daily
    /\ total = Z.of_nat (List.length sel)
    /\ valid + invalid = total
    /\ (range = None -> total = Z.of_nat (List.length (votes st)))
    /\ Zsum (List.map snd byPosition) = total
    /\ Zsum (List.map snd daily) = total
    /\ List.NoDup (List.map fst byPosition)
    /\ List.NoDup (List.map fst daily)
    /\ (forall p,
          group_lookup byPosition p
          = Z.of_nat (List.length
                        (List.filter (fun v => String.eqb (position v) p) sel)))
    /\ (forall day,
          group_lookup daily day
          = Z.of_nat (List.length
                        (List.filter
                           (fun v => String.eqb (dateToString (createdAt v)) day)
                           sel)))
    /\ StronglySorted (fun a b => snd b <= snd a) byPosition.
Proof.
  intros Hu sel. unfold adminStats. rewrite Hu. fold sel.
  do 5 eexists. split; [reflexivity|].
  assert (Hg : forall keys : list string,
            let g := group_count keys in
            List.NoDup (List.map fst g)
            /\ Zsum (List.map snd g) = Z.of_nat (List.length keys)
            /\ forall k', group_lookup g k'
                          = Z.of_nat (List.length
                                        (List.filter (fun k => String.eqb k k')
                                                     keys))).
  { intros keys. unfold group_count.
    destruct (group_count_from keys [] (List.NoDup_nil _) (List.Forall_nil _))
      as (G1 & _ & G3 & G4).
    cbv zeta in *. split; [exact G1|]. split; [exact G3|].
    intros k'. rewrite G4. reflexivity. }
  destruct (Hg (List.map position sel)) as (P1 & P2 & P3).
  destruct (Hg (List.map (fun v => dateToString (createdAt v)) sel))
    as (D1 & D2 & D3).
  cbv zeta in *. rewrite List.length_map in P2, D2.
  pose proof (sort_desc_perm snd (group_count (List.map position sel))) as Hpp.
  pose proof (sort_by_key_perm
                (group_count
                   (List.map (fun v => dateToString (createdAt v)) sel)))
    as Hdp.
  split; [reflexivity|]. split.
  { pose proof (filter_split_length isValid sel). lia. }
  split.
  { intros ->. unfold sel. cbn [in_range].
    f_equal. f_equal. clear. induction (votes st) as [|v vs IH];
      simpl; congruence. }
  split; [now rewrite (Zsum_perm _ _ (Permutation_map snd Hpp))|].
  split; [now rewrite (Zsum_perm _ _ (Permutation_map snd Hdp))|].
  split.
  { exact (Permutation_NoDup (Permutation_sym (Permutation_map fst Hpp)) P1). }
  split.
  { exact (Permutation_NoDup (Permutation_sym (Permutation_map fst Hdp)) D1). }
  split.
  { intros p.
    rewrite (group_lookup_perm _ _ p P1 (Permutation_sym Hpp)), P3.
    f_equal. clear. induction sel as [|v vs IH]; simpl; [reflexivity|].
    destruct (String.eqb (position v) p); simpl; congruence. }
  split.
  { intros day.
    rewrite (group_lookup_perm _ _ day D1 (Permutation_sym Hdp)), D3.
    f_equal. clear. induction sel as [|v vs IH]; simpl; [reflexivity|].
    destruct (String.eqb (dateToString (createdAt v)) day); simpl; congruence. }
  apply (sort_desc_sorted snd).
Qed.

(** * The further theorems at work on the small election *)

(** Alice's invalidated vote after more traffic: still there, still
    invalid. *)
Lemma ledger_votes_persist_witness :
  exists w',
    Vote_findById
      (votes (ledger_exec db_one_invalidated
                [OpCast (ballot dave 11%N "President" 3000);
                 OpInvalidate carol 100%N])) 100%N = Some w'
    /\ isValid w' = false.
Proof.
  destruct (ledger_votes_persist
              [OpCast (ballot dave 11%N "President" 3000);
               OpInvalidate carol 100%N]
              db_one_invalidated 100%N (set_isValid alice_vote false) eq_refl)
    as (w' & H1 & _ & H3).
  exists w'. split; [exact H1 | exact (H3 eq_refl)].
Defined.


(** Alice's older vote, rank 1 of her history, is on page 2 when pages hold
    one vote. *)
Lemma votingHistory_pages_cover_witness :
  exists h,
    votingHistory db_history alice 2 1 = Some h
    /\ List.nth_error (List.map pv_vote (h_votes h)) 0 = Some alice_vote.
Proof.
  destruct (votingHistory_pages_cover db_history alice 1 (ltac:(lia)))
    as [Hcover _].
  exact (Hcover 1%nat alice_vote eq_refl).
Defined.

(** The requests of the small election against an empty limiter. *)
Lemma rateLimit_run_bounds_witness :
  clock_monotone 0 auth_requests
  /\ Forall (fun d => forall s, d = TooMany s -> 0 <= s <= 900)
            (fst (rateLimit_run ∅ auth_requests)).
Proof.
  assert (Hc : clock_monotone 0 auth_requests)
    by (cbn; repeat split; lia).
  split; [exact Hc|].
  apply (rateLimit_run_bounds auth_requests ∅ 0); [|exact Hc].
  intros k a Hk. rewrite lookup_empty in Hk. discriminate.
Defined.

(** A clean-up after the requests of the small election, then one more
    request. *)
Lemma cleanup_attempts_unobservable_witness :
  let m := snd (rateLimit_run ∅ auth_requests) in
  fst (rateLimit_run (cleanup_attempts m 2000000)
                     [("10.0.0.7"%string, 2000001)])
  = fst (rateLimit_run m [("10.0.0.7"%string, 2000001)]).
Proof.
  cbv zeta. apply cleanup_attempts_unobservable. cbn. split; [lia | exact I].
Defined.

(** Carol, an admin, invalidates Alice's vote through the route. *)
Lemma put_invalidate_admin_only_witness :
  exists d,
    fst (auth demo_verify demo_users (bearer "carol.jwt") 2000000)
    = Authenticated d
    /\ ud_role d = admin_role
    /\ ud_isActive d = true.
Proof.
  apply (put_invalidate_admin_only demo_verify demo_users db_two_votes
           (bearer "carol.jwt") 100%N 2000000).
  vm_compute. intros H. discriminate H.
Defined.

(** Alice, who has voted for President, asks again. *)
Lemma canVoteForPosition_agrees_witness :
  canVoteForPosition (votes db_two_votes) alice_doc "President" = false
  /\ response (castVote db_two_votes (ballot alice 11%N "President" 5000))
     = DuplicateVote.
Proof.
  destruct (canVoteForPosition_agrees db_two_votes alice_doc
              (ballot alice 11%N "President" 5000) eq_refl eq_refl)
    as [_ [H _]].
  split; [reflexivity | exact (H eq_refl)].
Defined.

(** Alice's statistics after her two votes. *)
Lemma User_updateStats_spec_witness :
  us_totalVotes (ud_stats (User_updateStats (votes db_history) alice_doc)) = 2
  /\ us_positionsVoted (ud_stats (User_updateStats (votes db_history) alice_doc))
     = us_totalVotes (ud_stats (User_updateStats (votes db_history) alice_doc)).
Proof.
  assert (H1 : List.NoDup (List.map index_key (votes db_history))).
  { vm_compute. repeat constructor; simpl; intuition discriminate. }
  assert (H2 : In alice_vote (votes db_history)) by (vm_compute; tauto).
  pose proof (User_updateStats_spec db_history alice_doc alice_vote
                H1 H2 eq_refl) as H.
  cbv zeta in H. destruct H as (_ & Hp & _).
  split; [reflexivity | exact Hp].
Defined.

(** Xavier is deleted while two votes reference him. *)
Lemma deleteCandidate_leaves_votes_witness :
  votes (snd (deleteCandidate db_two_votes 10%N)) = votes db_two_votes
  /\ castVote (snd (deleteCandidate db_two_votes 10%N))
              (ballot dave 10%N "President" 3000)
     = reply CandidateNotFound (snd (deleteCandidate db_two_votes 10%N)).
Proof.
  assert (H1 : List.NoDup (List.map cand_id (candidates db_two_votes))).
  { vm_compute. repeat constructor; simpl; intuition discriminate. }
  pose proof (deleteCandidate_leaves_votes db_two_votes 10%N
                cand_X H1 eq_refl) as H.
  cbv zeta in H. destruct H as (_ & Hv & _ & _ & Hc & _).
  split; [exact Hv|]. apply Hc; reflexivity.
Defined.

(** Carol's statistics over the whole history. *)
Lemma adminStats_adds_up_witness :
  exists total valid invalid byPosition daily,
    adminStats demo_day db_history carol None
    = StatsReport total valid invalid byPosition daily
    /\ total = 3
    /\ valid + invalid = total
    /\ Zsum (List.map snd byPosition) = total.
Proof.
  destruct (adminStats_adds_up demo_day db_history carol None eq_refl)
    as (total & valid & invalid & byPos & daily & H1 & H2 & H3 & _ & H5 & _).
  exists total, valid, invalid, byPos, daily.
  split; [exact H1|]. split; [exact H2|]. split; [exact H3 | exact H5].
Defined.
